(** * Figma component extraction and registry diff (index.js)

    A shallow embedding of the decision logic of the server: the node
    predicates [isAtomicComponent] and [isScreenOrFrame], the category rule
    [determineComponentCategory], the tree walk of
    [extractAllNestedComponents], and the two request handlers that compare
    the extracted catalogue with the component registry
    ([/api/check-component] and [/api/parse-and-check]).

    Modelling conventions.
    - A JavaScript string is a [string] of 8-bit characters; [toLowerCase]
      lower-cases the letters A-Z and leaves every other character alone.
    - A JavaScript number read from the JSON document is a rational [Q]
      (every finite double is one); an absent field is [None], and a
      relational comparison with [undefined] is [false].
    - A thrown exception is the [Err] branch of [result]; code that can throw
      is written in the error monad.
    - The remote services (Figma, GitLab, OpenAI) are an environment of
      replies, each either resolved with data or rejected with an error. *)

From Stdlib Require Import List String Ascii Bool Arith Lia QArith Permutation.
Import ListNotations.
Local Close Scope Q_scope.
Local Open Scope string_scope.
Local Open Scope list_scope.

(** ** Exceptions *)

Module Js.

(** [TypeError]: a property read or a call on [undefined]/[null].
    [SyntaxError]: [JSON.parse] on text that is not JSON.
    [RequestError]: a rejected axios/OpenAI promise, with the HTTP status
    when the server answered, and the message. *)
Inductive exn : Type :=
| TypeError
| SyntaxError
| RequestError (status : option nat) (message : string).

Inductive result (A : Type) : Type :=
| Ok (a : A)
| Err (e : exn).
Arguments Ok {A} a.
Arguments Err {A} e.

Definition bind {A B : Type} (m : result A) (k : A -> result B) : result B :=
  match m with
  | Ok a => k a
  | Err e => Err e
  end.

(** [Array.prototype.some] with a callback that may throw: stops at the
    first element for which the callback is true, and at the first throw. *)
Fixpoint some {A : Type} (f : A -> result bool) (l : list A) : result bool :=
  match l with
  | [] => Ok false
  | x :: l' =>
      match f x with
      | Err e => Err e
      | Ok true => Ok true
      | Ok false => some f l'
      end
  end.

(** [Array.prototype.filter] with a callback that may throw. *)
Fixpoint filter {A : Type} (f : A -> result bool) (l : list A)
  : result (list A) :=
  match l with
  | [] => Ok []
  | x :: l' =>
      match f x with
      | Err e => Err e
      | Ok b =>
          match filter f l' with
          | Err e => Err e
          | Ok r => Ok (if b then x :: r else r)
          end
      end
  end.

(** The callback returned [true], without throwing. *)
Definition holds (r : result bool) : bool :=
  match r with
  | Ok true => true
  | _ => false
  end.

End Js.

Import Js.

Notation "x <- m ;; k" := (Js.bind m (fun x => k))
  (at level 61, m at next level, right associativity).

(** ** Strings *)

Definition isUpper (c : ascii) : bool :=
  ((65 <=? nat_of_ascii c) && (nat_of_ascii c <=? 90))%nat.

Definition lowerChar (c : ascii) : ascii :=
  if isUpper c then ascii_of_nat (nat_of_ascii c + 32) else c.

(** [String.prototype.toLowerCase]. *)
Fixpoint toLowerCase (s : string) : string :=
  match s with
  | EmptyString => EmptyString
  | String c s' => String (lowerChar c) (toLowerCase s')
  end.

(** [startsWith s p]: [p] is a prefix of [s]. *)
Fixpoint startsWith (s p : string) : bool :=
  match p with
  | EmptyString => true
  | String b p' =>
      match s with
      | EmptyString => false
      | String a s' => Ascii.eqb a b && startsWith s' p'
      end
  end.

(** [String.prototype.includes]: [s.includes(p)]. *)
Fixpoint includes (s p : string) : bool :=
  startsWith s p ||
  match s with
  | EmptyString => false
  | String _ s' => includes s' p
  end.

(** [p] occurs in [s] as a contiguous substring. *)
Definition occursIn (p s : string) : Prop :=
  exists a b : string, s = (a ++ p ++ b)%string.

(** ** Numbers *)

(** [x < k] where [x] may be [undefined]. *)
Definition jsLt (x : option Q) (k : Q) : bool :=
  match x with
  | Some v => negb (Qle_bool k v)
  | None => false
  end.

(** [x >= k] where [x] may be [undefined]. *)
Definition jsGe (x : option Q) (k : Q) : bool :=
  match x with
  | Some v => Qle_bool k v
  | None => false
  end.

(** ** Document nodes *)

Record BoundingBox : Type := mkBox {
  width : option Q;
  height : option Q
}.

(** The style payload copied into a component record without being looked
    at ([backgroundColor], [opacity], [effects]). *)
Record Styles : Type := mkStyles {
  backgroundColor : option string;
  opacity : option Q;
  effects : option string
}.

(** A node of the Figma document.  [name] is [None] when the field is absent
    or not a string, [absoluteBoundingBox] and [children] are [None] when the
    field is absent. *)
#[local] Unset Elimination Schemes.
Inductive Node : Type :=
  mkNode (name : option string) (id : string) (type : string)
         (description : option string)
         (absoluteBoundingBox : option BoundingBox)
         (nodeStyles : Styles)
         (children : option (list Node)).
#[local] Set Elimination Schemes.

Definition name (n : Node) : option string :=
  let 'mkNode x _ _ _ _ _ _ := n in x.
Definition id (n : Node) : string :=
  let 'mkNode _ x _ _ _ _ _ := n in x.
Definition type (n : Node) : string :=
  let 'mkNode _ _ x _ _ _ _ := n in x.
Definition description (n : Node) : option string :=
  let 'mkNode _ _ _ x _ _ _ := n in x.
Definition absoluteBoundingBox (n : Node) : option BoundingBox :=
  let 'mkNode _ _ _ _ x _ _ := n in x.
Definition nodeStyles (n : Node) : Styles :=
  let 'mkNode _ _ _ _ _ x _ := n in x.
Definition children (n : Node) : option (list Node) :=
  let 'mkNode _ _ _ _ _ _ x := n in x.

(** [node.absoluteBoundingBox?.width] and [?.height]. *)
Definition boxWidth (n : Node) : option Q :=
  match absoluteBoundingBox n with
  | Some b => width b
  | None => None
  end.

Definition boxHeight (n : Node) : option Q :=
  match absoluteBoundingBox n with
  | Some b => height b
  | None => None
  end.

(** [node.name.toLowerCase()]: throws when [name] is not a string. *)
Definition lowerName (n : Node) : result string :=
  match name n with
  | Some s => Ok (toLowerCase s)
  | None => Err TypeError
  end.

(** ** Classifier *)

Definition atomicPatterns : list string :=
  [ "button"; "input"; "text"; "icon"; "image"; "avatar"; "badge";
    "statusbar"; "header"; "footer"; "card"; "list"; "tab"; "modal";
    "checkbox"; "radio"; "switch"; "slider"; "progress"; "spinner" ].

Definition isAtomicComponent (node : Node) : result bool :=
  name <- lowerName node ;;
  let isComponent :=
    String.eqb (type node) "COMPONENT" || String.eqb (type node) "INSTANCE" in
  let isAtomic := existsb (fun pattern => includes name pattern) atomicPatterns in
  let isSmall := jsLt (boxWidth node) 500%Q && jsLt (boxHeight node) 500%Q in
  Ok (isComponent && (isAtomic || isSmall)).

Definition screenPatterns : list string :=
  [ "page"; "screen"; "view"; "layout"; "container"; "section";
    "home"; "dashboard"; "profile"; "settings" ].

Definition isScreenOrFrame (node : Node) : result bool :=
  name <- lowerName node ;;
  let isFrame := String.eqb (type node) "FRAME" in
  let isScreen := existsb (fun pattern => includes name pattern) screenPatterns in
  let isLarge := jsGe (boxWidth node) 500%Q || jsGe (boxHeight node) 500%Q in
  Ok (isFrame && (isScreen || isLarge)).

Inductive Category : Type :=
| STATUS_BAR | BUTTON | INPUT | TEXT | ICON | IMAGE | AVATAR
| BADGE | CARD | LIST | TAB | MODAL | OTHER.

Definition determineComponentCategory (node : Node) : result Category :=
  name <- lowerName node ;;
  if includes name "statusbar" then Ok STATUS_BAR
  else if includes name "button" then Ok BUTTON
  else if includes name "input" || includes name "textfield" then Ok INPUT
  else if includes name "text" then Ok TEXT
  else if includes name "icon" then Ok ICON
  else if includes name "image" then Ok IMAGE
  else if includes name "avatar" then Ok AVATAR
  else if includes name "badge" then Ok BADGE
  else if includes name "card" then Ok CARD
  else if includes name "list" then Ok LIST
  else if includes name "tab" then Ok TAB
  else if includes name "modal" then Ok MODAL
  else Ok OTHER.

(** ** Tree walk *)

Module Component.
(** The record pushed for an atomic component. *)
Record t : Type := mk {
  name : string;
  id : string;
  path : list string;
  type : string;
  category : Category;
  description : string;
  width : option Q;
  height : option Q;
  children : nat;
  styles : Styles
}.
End Component.

Module Screen.
(** The record pushed for a screen or frame. *)
Record t : Type := mk {
  name : string;
  id : string;
  type : string;
  width : option Q;
  height : option Q
}.
End Screen.

(** The two arrays [components] and [screens] that [walk] pushes to. *)
Record Extracted : Type := mkExtracted {
  atomicComponents : list Component.t;
  screens : list Screen.t
}.

(** [node.name] where it is read after [isAtomicComponent] has returned,
    that is where it is a string. *)
Definition nameStr (n : Node) : string :=
  match name n with
  | Some s => s
  | None => ""
  end.

(** [node.description || ''] *)
Definition descriptionOr (n : Node) : string :=
  match description n with
  | Some s => s
  | None => ""
  end.

(** [node.children?.length || 0] *)
Definition childCount (n : Node) : nat :=
  match children n with
  | Some cs => List.length cs
  | None => 0
  end.

Definition componentRecord (node : Node) (parentPath : list string)
  (cat : Category) : Component.t :=
  {| Component.name := nameStr node;
     Component.id := id node;
     Component.path := parentPath ++ [nameStr node];
     Component.type := type node;
     Component.category := cat;
     Component.description := descriptionOr node;
     Component.width := boxWidth node;
     Component.height := boxHeight node;
     Component.children := childCount node;
     Component.styles := nodeStyles node |}.

Definition screenRecord (node : Node) : Screen.t :=
  {| Screen.name := nameStr node;
     Screen.id := id node;
     Screen.type := "SCREEN";
     Screen.width := boxWidth node;
     Screen.height := boxHeight node |}.

Definition pushComponent (acc : Extracted) (c : Component.t) : Extracted :=
  {| atomicComponents := atomicComponents acc ++ [c]; screens := screens acc |}.

Definition pushScreen (acc : Extracted) (s : Screen.t) : Extracted :=
  {| atomicComponents := atomicComponents acc; screens := screens acc ++ [s] |}.

(** The [if / else if] at the head of [walk]: what the node itself
    contributes. *)
Definition visit (node : Node) (parentPath : list string) (acc : Extracted)
  : result Extracted :=
  atomic <- isAtomicComponent node ;;
  if atomic then
    cat <- determineComponentCategory node ;;
    Ok (pushComponent acc (componentRecord node parentPath cat))
  else
    screen <- isScreenOrFrame node ;;
    if screen then Ok (pushScreen acc (screenRecord node)) else Ok acc.

(** [walk(node, parentPath)], with the two captured arrays threaded as
    [acc].  [forEach] is [node.children.forEach(child => walk(child, ...))]. *)
Fixpoint walk (node : Node) (parentPath : list string) (acc : Extracted)
  {struct node} : result Extracted :=
  acc1 <- visit node parentPath acc ;;
  match node with
  | mkNode _ _ _ _ _ _ None => Ok acc1
  | mkNode _ _ _ _ _ _ (Some kids) =>
      (fix forEach (l : list Node) (acc : Extracted) {struct l}
         : result Extracted :=
         match l with
         | [] => Ok acc
         | child :: l' =>
             acc' <- walk child (parentPath ++ [nameStr node]) acc ;;
             forEach l' acc'
         end) kids acc1
  end.

Definition noneExtracted : Extracted :=
  {| atomicComponents := []; screens := [] |}.

Definition extractAllNestedComponents (document : Node) : result Extracted :=
  walk document [] noneExtracted.

(** ** Remote services *)

Module RepoFile.
(** An entry of the GitLab repository tree. *)
Record t : Type := mk {
  path : string;
  type : string
}.
End RepoFile.

(** The Figma file response: the document and the pass-through metadata. *)
Record FigmaFile : Type := mkFigmaFile {
  document : Node;
  fileName : option string;
  lastModified : option string;
  version : option string
}.

Record FileInfo : Type := mkFileInfo {
  info_name : option string;
  info_lastModified : option string;
  info_version : option string
}.

Definition fileInfoOf (f : FigmaFile) : FileInfo :=
  {| info_name := fileName f;
     info_lastModified := lastModified f;
     info_version := version f |}.

(** An element of the oracle's [existing] array: [null], or a value whose
    [originalName] is a string or is not one. *)
Inductive ExistingEntry : Type :=
| NullEntry
| ObjEntry (originalName : option string) (matchedName : option string).

Module Analysis.
(** The value [JSON.parse] returns for the oracle's message.  A field is
    [None] when it is absent or not an array; an element of [new] is
    [None] when it is not a string. *)
Record t : Type := mk {
  existing : option (list ExistingEntry);
  new : option (list (option string))
}.
End Analysis.

(** The oracle's message content, before [JSON.parse]. *)
Inductive OracleContent : Type :=
| NotJson
| Json (a : Analysis.t).

Definition JSON_parse (c : OracleContent) : result Analysis.t :=
  match c with
  | NotJson => Err SyntaxError
  | Json a => Ok a
  end.

(** What the awaited calls of a request resolve to.  [gitlabTreePages] are
    the replies to page 1, 2, ... of the paginated tree listing; a page
    after the last listed one is empty. *)
Record Services : Type := mkServices {
  figmaFile : string -> result FigmaFile;
  figmaNode : string -> string -> result Node;
  gitlabTree : result (list RepoFile.t);
  gitlabTreePages : list (result (list RepoFile.t));
  gitlabRaw : string -> result string;
  openaiCompare : string -> list string -> result OracleContent
}.

(** ** /api/check-component *)

Module CheckComponent.

Record Request : Type := mkRequest {
  componentName : string;
  figmaComponents : list Component.t
}.

(** The five fields of a new component that the response keeps. *)
Record NewView : Type := mkView {
  name : string;
  category : Category;
  description : string;
  width : option Q;
  height : option Q
}.

Definition view (c : Component.t) : NewView :=
  {| name := Component.name c;
     category := Component.category c;
     description := Component.description c;
     width := Component.width c;
     height := Component.height c |}.

Inductive Response : Type :=
| NoRegistry (exists_ : bool) (message : string) (files : list string)
             (newComponents : list Component.t)
| Checked (exists_ : bool) (message : string) (registryPath : string)
          (newComponents : list NewView)
| Failed (error : string) (cause : exn).

Definition registryPath : string :=
  "packages/src/customer/vdlComponents/registry.ts".

(** [registryContent.includes(componentName)] *)
Definition componentExists (registryContent componentName : string) : bool :=
  includes registryContent componentName.

(** The callback of [figmaComponents.filter]. *)
Definition isNew (registryContent : string) (component : Component.t) : bool :=
  let componentName := toLowerCase (Component.name component) in
  negb (includes (toLowerCase registryContent) componentName).

Definition run (svc : Services) (req : Request) : result Response :=
  data <- gitlabTree svc ;;
  match find (fun file => String.eqb (RepoFile.path file) registryPath) data with
  | None =>
      Ok (NoRegistry false "Registry file not found in repository"
            (map RepoFile.path data) (figmaComponents req))
  | Some registryFile =>
      registryContent <- gitlabRaw svc (RepoFile.path registryFile) ;;
      let componentExists := componentExists registryContent (componentName req) in
      let newComponents := List.filter (isNew registryContent) (figmaComponents req) in
      Ok (Checked componentExists
            (if componentExists then "Component found in registry"
             else "Component not found in registry")
            (RepoFile.path registryFile)
            (map view newComponents))
  end.

(** The handler: the [try] body, and the [catch] that answers 500. *)
Definition handler (svc : Services) (req : Request) : Response :=
  match run svc req with
  | Ok r => r
  | Err err => Failed "Component check failed" err
  end.

End CheckComponent.

(** ** /api/parse-and-check *)

Module ParseAndCheck.

Record Request : Type := mkRequest {
  fileKey : string;
  nodeId : option string
}.

Module Components.
(** The [components] object of the report. *)
Record t : Type := mk {
  existing : list Component.t;
  new : list Component.t;
  analysis : option Analysis.t
}.
End Components.

Record Report : Type := mkReport {
  success : bool;
  message : string;
  availablePaths : option (list string);
  components : Components.t;
  reportScreens : list Screen.t;
  fileInfo : FileInfo;
  gitlabError : option exn
}.

Inductive Response : Type :=
| Answered (r : Report)
| Failed (error : string) (cause : exn).

(** The [while (hasMore)] loop over the pages of the repository tree. *)
Fixpoint fetchTree (pages : list (result (list RepoFile.t)))
  (allFiles : list RepoFile.t) : result (list RepoFile.t) :=
  match pages with
  | [] => Ok allFiles
  | Err e :: _ => Err e
  | Ok [] :: _ => Ok allFiles
  | Ok data :: rest => fetchTree rest (allFiles ++ data)
  end.

Definition possibleRegistryPaths : list string :=
  [ "packages/customer/src/registry.ts";
    "packages/src/customer/vdlComponents/registry.ts";
    "packages/src/registry.ts";
    "src/registry.ts" ].

(** The [for (const path of possibleRegistryPaths)] loop. *)
Fixpoint findRegistry (paths : list string) (allFiles : list RepoFile.t)
  : option RepoFile.t :=
  match paths with
  | [] => None
  | path :: rest =>
      match find (fun file => String.eqb (RepoFile.path file) path) allFiles with
      | Some registryFile => Some registryFile
      | None => findRegistry rest allFiles
      end
  end.

(** [analysis.existing.some(e => e.originalName === component.name)] *)
Definition inExisting (analysis : Analysis.t) (component : Component.t)
  : result bool :=
  match Analysis.existing analysis with
  | None => Err TypeError
  | Some es =>
      Js.some (fun e =>
                 match e with
                 | NullEntry => Err TypeError
                 | ObjEntry (Some n) _ => Ok (String.eqb n (Component.name component))
                 | ObjEntry None _ => Ok false
                 end) es
  end.

(** [analysis.new.some(n => n === component.name)] *)
Definition inNew (analysis : Analysis.t) (component : Component.t)
  : result bool :=
  match Analysis.new analysis with
  | None => Err TypeError
  | Some ns =>
      Js.some (fun n =>
                 match n with
                 | Some n => Ok (String.eqb n (Component.name component))
                 | None => Ok false
                 end) ns
  end.

(** The two filters that separate the catalogue by the oracle's analysis. *)
Definition separate (analysis : Analysis.t) (atomicComponents : list Component.t)
  : result (list Component.t * list Component.t) :=
  existingComponents <- Js.filter (inExisting analysis) atomicComponents ;;
  newComponents <- Js.filter (inNew analysis) atomicComponents ;;
  Ok (existingComponents, newComponents).

(** The inner [try] body: the registry check. *)
Definition checkRegistry (svc : Services) (found : Extracted) (info : FileInfo)
  : result Report :=
  allFiles <- fetchTree (gitlabTreePages svc) [] ;;
  match findRegistry possibleRegistryPaths allFiles with
  | None =>
      Ok {| success := true;
            message := "Registry file not found in repository";
            availablePaths := Some (map RepoFile.path allFiles);
            components := Components.mk [] (atomicComponents found) None;
            reportScreens := screens found;
            fileInfo := info;
            gitlabError := None |}
  | Some registryFile =>
      registryContent <- gitlabRaw svc (RepoFile.path registryFile) ;;
      let componentNames := map Component.name (atomicComponents found) in
      content <- openaiCompare svc registryContent componentNames ;;
      analysis <- JSON_parse content ;;
      parts <- separate analysis (atomicComponents found) ;;
      Ok {| success := true;
            message := "Components parsed and checked successfully";
            availablePaths := None;
            components := Components.mk (fst parts) (snd parts) (Some analysis);
            reportScreens := screens found;
            fileInfo := info;
            gitlabError := None |}
  end.

(** The inner [catch (gitlabError)]. *)
Definition withoutRegistryCheck (found : Extracted) (info : FileInfo)
  (gitlabError : exn) : Report :=
  {| success := true;
     message := "GitLab API access failed, returning all components as new";
     availablePaths := None;
     components := Components.mk [] (atomicComponents found) None;
     reportScreens := screens found;
     fileInfo := info;
     gitlabError := Some gitlabError |}.

(** Step 1 up to [nodeData]: the file response and the document to walk. *)
Definition fetchDocument (svc : Services) (req : Request)
  : result (FigmaFile * Node) :=
  fileResponse <- figmaFile svc (fileKey req) ;;
  nodeData <- match nodeId req with
              | Some nodeId => figmaNode svc (fileKey req) nodeId
              | None => Ok (document fileResponse)
              end ;;
  Ok (fileResponse, nodeData).

(** The outer [try] body. *)
Definition run (svc : Services) (req : Request) : result Report :=
  fetched <- fetchDocument svc req ;;
  let fileResponse := fst fetched in
  let nodeData := snd fetched in
  found <- extractAllNestedComponents nodeData ;;
  match checkRegistry svc found (fileInfoOf fileResponse) with
  | Ok report => Ok report
  | Err gitlabError =>
      Ok (withoutRegistryCheck found (fileInfoOf fileResponse) gitlabError)
  end.

(** The handler: the outer [try], and the [catch] that answers 500. *)
Definition handler (svc : Services) (req : Request) : Response :=
  match run svc req with
  | Ok report => Answered report
  | Err err => Failed "Parse and check failed" err
  end.

End ParseAndCheck.

(** ** The category rule as an ordered table *)

(** The ordered substring checks of the category rule, as a table: each row
    lists the substrings that select the category of the row. *)
Definition categoryRules : list (list string * Category) :=
  [ (["statusbar"], STATUS_BAR);
    (["button"], BUTTON);
    (["input"; "textfield"], INPUT);
    (["text"], TEXT);
    (["icon"], ICON);
    (["image"], IMAGE);
    (["avatar"], AVATAR);
    (["badge"], BADGE);
    (["card"], CARD);
    (["list"], LIST);
    (["tab"], TAB);
    (["modal"], MODAL) ].

(** The category of the first row of [rules] one of whose substrings occurs
    in [lowered]; [OTHER] when no row matches. *)
Fixpoint firstMatch (rules : list (list string * Category)) (lowered : string)
  : Category :=
  match rules with
  | [] => OTHER
  | (patterns, cat) :: rest =>
      if existsb (fun pattern => includes lowered pattern) patterns then cat
      else firstMatch rest lowered
  end.

(** A row of the table matches [lowered]. *)
Definition rowMatches (lowered : string) (row : list string * Category) : Prop :=
  exists p, In p (fst row) /\ occursIn p lowered.

(** [cat] is selected by the first matching row of [rules], or is [OTHER]
    when no row matches. *)
Definition firstMatchIs (rules : list (list string * Category))
  (lowered : string) (cat : Category) : Prop :=
  (exists before row after,
      rules = before ++ row :: after /\
      snd row = cat /\
      rowMatches lowered row /\
      forall r, In r before -> ~ rowMatches lowered r)
  \/ (cat = OTHER /\ forall r, In r rules -> ~ rowMatches lowered r).

(** ** The three outcomes of classification *)

Inductive Classification : Type :=
| AtomicComponent
| ScreenOrFrame
| Neither.

(** What [visit] does to the two arrays under each outcome. *)
Definition classifiedAs (node : Node) (parentPath : list string)
  (acc : Extracted) (k : Classification) : Prop :=
  match k with
  | AtomicComponent =>
      exists cat,
        determineComponentCategory node = Ok cat /\
        visit node parentPath acc
        = Ok (pushComponent acc (componentRecord node parentPath cat))
  | ScreenOrFrame =>
      visit node parentPath acc = Ok (pushScreen acc (screenRecord node))
  | Neither =>
      visit node parentPath acc = Ok acc
  end.

(** ** Pre-order traversal of a document *)

(** The children of a node, none when the field is absent. *)
Definition kids (n : Node) : list Node :=
  match children n with
  | Some cs => cs
  | None => []
  end.

(** The nodes of a tree in depth-first pre-order: the node, then the
    pre-order of each child from first to last. *)
Fixpoint preorder (n : Node) : list Node :=
  n :: match n with
       | mkNode _ _ _ _ _ _ (Some cs) => flat_map preorder cs
       | mkNode _ _ _ _ _ _ None => []
       end.

(** The number of nodes of a tree. *)
Fixpoint size (n : Node) : nat :=
  S match n with
    | mkNode _ _ _ _ _ _ (Some cs) => list_sum (map size cs)
    | mkNode _ _ _ _ _ _ None => 0
    end.

(** The descriptors of the pre-order listing: each node with its accumulated
    path, the names of its strict ancestors after [parentPath]. *)
Fixpoint descriptors (parentPath : list string) (n : Node)
  : list (list string * Node) :=
  (parentPath, n)
    :: match n with
       | mkNode _ _ _ _ _ _ (Some cs) =>
           flat_map (descriptors (parentPath ++ [nameStr n])) cs
       | mkNode _ _ _ _ _ _ None => []
       end.

(** [ancestry root chain n]: [n] is in the tree of [root], and [chain] lists
    its strict ancestors from [root] down to its parent. *)
Inductive ancestry (root : Node) : list Node -> Node -> Prop :=
| ancestry_root : ancestry root [] root
| ancestry_child (chain : list Node) (parent child : Node) :
    ancestry root chain parent ->
    In child (kids parent) ->
    ancestry root (chain ++ [parent]) child.

(** Every node of the tree has a [name]. *)
Definition allNamed (n : Node) : bool :=
  forallb (fun m => match name m with Some _ => true | None => false end)
          (preorder n).

(** The component record that a node itself contributes, if any. *)
Definition ownComponent (node : Node) (parentPath : list string)
  : list Component.t :=
  match isAtomicComponent node, determineComponentCategory node with
  | Ok true, Ok cat => [componentRecord node parentPath cat]
  | _, _ => []
  end.

(** The screen record that a node itself contributes, if any. *)
Definition ownScreen (node : Node) : list Screen.t :=
  match isAtomicComponent node, isScreenOrFrame node with
  | Ok false, Ok true => [screenRecord node]
  | _, _ => []
  end.

(** The words of a path: the names of a chain of nodes. *)
Definition names (chain : list Node) : list string := map nameStr chain.

(** The [forEach] loop of [walk] over a list of children. *)
Fixpoint walkEach (l : list Node) (path : list string) (acc : Extracted)
  : result Extracted :=
  match l with
  | [] => Ok acc
  | child :: l' =>
      acc' <- walk child path acc ;;
      walkEach l' path acc'
  end.

(** The catalogue and the screen list that the walk of [n] under
    [parentPath] produces from empty arrays. *)
Definition catalogueOf (n : Node) (parentPath : list string)
  : list Component.t :=
  match walk n parentPath noneExtracted with
  | Ok found => atomicComponents found
  | Err _ => []
  end.

Definition screensOf (n : Node) (parentPath : list string) : list Screen.t :=
  match walk n parentPath noneExtracted with
  | Ok found => screens found
  | Err _ => []
  end.

(** ** What the oracle's lists say *)

(** [nm] is the [originalName] of an element of the oracle's [existing]. *)
Definition listedExisting (a : Analysis.t) (nm : string) : Prop :=
  exists es matched,
    Analysis.existing a = Some es /\ In (ObjEntry (Some nm) matched) es.

(** [nm] is an element of the oracle's [new]. *)
Definition listedNew (a : Analysis.t) (nm : string) : Prop :=
  exists ns, Analysis.new a = Some ns /\ In (Some nm) ns.

(** The registry content cannot be obtained: the listing of the repository
    fails, or lists none of the registry paths, or the raw file cannot be
    fetched. *)
Definition registryUnavailable (svc : Services) : Prop :=
  (exists e, ParseAndCheck.fetchTree (gitlabTreePages svc) [] = Err e)
  \/ (exists allFiles,
         ParseAndCheck.fetchTree (gitlabTreePages svc) [] = Ok allFiles /\
         ParseAndCheck.findRegistry ParseAndCheck.possibleRegistryPaths allFiles
         = None)
  \/ (exists allFiles registryFile e,
         ParseAndCheck.fetchTree (gitlabTreePages svc) [] = Ok allFiles /\
         ParseAndCheck.findRegistry ParseAndCheck.possibleRegistryPaths allFiles
         = Some registryFile /\
         gitlabRaw svc (RepoFile.path registryFile) = Err e).

(** The report says that no registry check took place. *)
Definition flaggedUnchecked (r : ParseAndCheck.Report) : Prop :=
  ParseAndCheck.message r = "Registry file not found in repository"
  \/ (ParseAndCheck.message r
       = "GitLab API access failed, returning all components as new"
       /\ exists e, ParseAndCheck.gitlabError r = Some e).

(** ** Sample documents *)

Definition noStyles : Styles :=
  {| backgroundColor := None; opacity := None; effects := None |}.

Definition sized (w h : Q) : option BoundingBox :=
  Some {| width := Some w; height := Some h |}.

Definition primaryButton : Node :=
  mkNode (Some "PrimaryButton") "1:2" "COMPONENT" None (sized 120 40) noStyles None.

Definition userAvatar : Node :=
  mkNode (Some "UserAvatar") "1:3" "COMPONENT" None (sized 48 48) noStyles None.

Definition homeScreen : Node :=
  mkNode (Some "HomeScreen") "1:1" "FRAME" None (sized 800 1200) noStyles
         (Some [primaryButton; userAvatar]).

(** A node without a [name] field. *)
Definition anonymous : Node :=
  mkNode None "9:9" "GROUP" None None noStyles None.

(** A card component that contains a button instance. *)
Definition buttonInCard : Node :=
  mkNode (Some "OfferCard") "2:1" "COMPONENT" None (sized 300 200) noStyles
         (Some [mkNode (Some "BuyButton") "2:2" "INSTANCE" None (sized 80 30)
                       noStyles (Some [])]).

(** ** Sample catalogue, oracle outputs and services *)

Definition buttonRecord : Component.t :=
  componentRecord primaryButton ["HomeScreen"] BUTTON.

Definition avatarRecord : Component.t :=
  componentRecord userAvatar ["HomeScreen"] AVATAR.

(** An oracle output that lists the button as existing and says nothing of
    the avatar. *)
Definition omitsAvatar : Analysis.t :=
  Analysis.mk (Some [ObjEntry (Some "PrimaryButton") (Some "primary-button")])
              (Some []).

(** An oracle output that lists the button both as existing and as new. *)
Definition listsButtonTwice : Analysis.t :=
  Analysis.mk (Some [ObjEntry (Some "PrimaryButton") (Some "primary-button")])
              (Some [Some "PrimaryButton"; Some "UserAvatar"]).

(** An oracle output that lists each of the two names once. *)
Definition listsEachOnce : Analysis.t :=
  Analysis.mk (Some [ObjEntry (Some "PrimaryButton") (Some "primary-button")])
              (Some [Some "UserAvatar"]).

Definition homeFile : FigmaFile :=
  {| document := homeScreen;
     fileName := Some "Home";
     lastModified := Some "2024-01-01T00:00:00Z";
     version := Some "1" |}.

Definition registryFileEntry : RepoFile.t :=
  RepoFile.mk "src/registry.ts" "blob".

(** Services where every call resolves and the oracle answers [a]. *)
Definition servicesAnswering (a : Analysis.t) : Services :=
  {| figmaFile := fun _ => Ok homeFile;
     figmaNode := fun _ _ => Ok homeScreen;
     gitlabTree := Ok [registryFileEntry];
     gitlabTreePages := [Ok [registryFileEntry]; Ok []];
     gitlabRaw := fun _ => Ok "export { PrimaryButton }";
     openaiCompare := fun _ _ => Ok (Json a) |}.

(** Services where GitLab does not answer. *)
Definition servicesWithoutGitlab : Services :=
  {| figmaFile := fun _ => Ok homeFile;
     figmaNode := fun _ _ => Ok homeScreen;
     gitlabTree := Err (RequestError (Some 401) "Unauthorized");
     gitlabTreePages := [Err (RequestError (Some 401) "Unauthorized")];
     gitlabRaw := fun _ => Err (RequestError (Some 401) "Unauthorized");
     openaiCompare := fun _ _ => Ok (Json listsEachOnce) |}.

Definition wholeFile : ParseAndCheck.Request :=
  {| ParseAndCheck.fileKey := "v6KD7JHlUIbwwtpAzISCNc";
     ParseAndCheck.nodeId := None |}.

(** ** ASCII text *)

(** Every character of [s] is an ASCII character, of code below 128.  On
    such text lower-casing acts on each of the letters A-Z by itself. *)
Fixpoint asciiText (s : string) : bool :=
  match s with
  | EmptyString => true
  | String c s' => (nat_of_ascii c <? 128)%nat && asciiText s'
  end.

(** ** Start-up: the required environment variables *)

Module Startup.

(** [process.env]: a variable is absent or holds a string. *)
Definition Env : Type := string -> option string.

(** A value of [process.env] is truthy when it is a non-empty string. *)
Definition truthy (v : option string) : bool :=
  match v with
  | Some (String _ _) => true
  | _ => false
  end.

Definition requiredEnvVars : list string :=
  [ "FIGMA_TOKEN"; "OPENAI_API_KEY"; "GITLAB_TOKEN"; "GITLAB_PROJECT_ID" ].

Definition missingEnvVars (env : Env) : list string :=
  List.filter (fun envVar => negb (truthy (env envVar))) requiredEnvVars.

(** [process.env.PORT || 3000] *)
Inductive Port : Type :=
| EnvPort (value : string)
| Port3000.

Definition PORT (env : Env) : Port :=
  match env "PORT" with
  | Some (String c s) => EnvPort (String c s)
  | _ => Port3000
  end.

(** The module either exits with a code or ends listening on a port. *)
Inductive Outcome : Type :=
| Exit (code : nat) (missing : list string)
| Listening (port : Port).

Definition start (env : Env) : Outcome :=
  let missingEnvVars := missingEnvVars env in
  if (0 <? List.length missingEnvVars)%nat then Exit 1 missingEnvVars
  else Listening (PORT env).

End Startup.

(** ** /api/parse-figma *)

Module ParseFigma.

Inductive Response : Type :=
| ConfigurationError (error details : string)
| Parsed (components : list Component.t) (screens : list Screen.t)
         (fileInfo : FileInfo)
| Failed (status : nat) (error : string) (cause : exn).

(** [err.response?.status] *)
Definition responseStatus (err : exn) : option nat :=
  match err with
  | RequestError status _ => status
  | _ => None
  end.

(** [status || 500]: an absent status and the status 0 give the default. *)
Definition orElse (status : option nat) (default : nat) : nat :=
  match status with
  | Some (S n) => S n
  | _ => default
  end.

(** The [try] body.  [nodeId] is [None] when the request has none, or an
    empty one. *)
Definition run (svc : Services) (req : ParseAndCheck.Request)
  : result Response :=
  fileResponse <- figmaFile svc (ParseAndCheck.fileKey req) ;;
  nodeData <- match ParseAndCheck.nodeId req with
              | Some nodeId => figmaNode svc (ParseAndCheck.fileKey req) nodeId
              | None => Ok (document fileResponse)
              end ;;
  found <- extractAllNestedComponents nodeData ;;
  Ok (Parsed (atomicComponents found) (screens found) (fileInfoOf fileResponse)).

Definition handler (FIGMA_TOKEN : option string) (svc : Services)
  (req : ParseAndCheck.Request) : Response :=
  if negb (Startup.truthy FIGMA_TOKEN) then
    ConfigurationError "Configuration error"
      "FIGMA_TOKEN is not set in environment variables"
  else
    match run svc req with
    | Ok r => r
    | Err err =>
        Failed (orElse (responseStatus err) 500) "Figma parsing failed" err
    end.

End ParseFigma.

(** ** /api/test-gitlab *)

Module TestGitlab.

(** The fields of the project response that the answer keeps. *)
Record Project : Type := mkProject {
  name : option string;
  path_with_namespace : option string;
  visibility : option string
}.

Inductive Response : Type :=
| MissingConfiguration (hasToken hasProjectId : bool)
| Verified (project : Project) (registryFile : option RepoFile.t)
| Failed (cause : exn).

Definition registryPath : string :=
  "packages/src/customer/vdlComponents/registry.ts".

(** The [try] body after the configuration test: the project is fetched,
    then the repository tree. *)
Definition run (projectResponse : result Project)
  (treeResponse : result (list RepoFile.t)) : result Response :=
  project <- projectResponse ;;
  tree <- treeResponse ;;
  let registryFile :=
    find (fun file => String.eqb (RepoFile.path file) registryPath) tree in
  Ok (Verified project registryFile).

Definition handler (GITLAB_TOKEN GITLAB_PROJECT_ID : option string)
  (projectResponse : result Project)
  (treeResponse : result (list RepoFile.t)) : Response :=
  if negb (Startup.truthy GITLAB_TOKEN) || negb (Startup.truthy GITLAB_PROJECT_ID)
  then MissingConfiguration (Startup.truthy GITLAB_TOKEN)
                            (Startup.truthy GITLAB_PROJECT_ID)
  else
    match run projectResponse treeResponse with
    | Ok r => r
    | Err error => Failed error
    end.

End TestGitlab.

(** ** /api/commit-component *)

Module CommitComponent.

Record Request : Type := mkRequest {
  branch : string;
  filePath : string;
  code : string;
  commitMessage : string
}.

Record Action : Type := mkAction {
  action : string;
  file_path : string;
  content : string
}.

(** The two POST requests that the handler sends to GitLab. *)
Inductive Post : Type :=
| PostBranch (branch ref : string)
| PostCommit (branch commit_message : string) (actions : list Action).

Inductive Response : Type :=
| Committed
| Failed (error : string) (cause : exn).

Section Handler.

(** GitLab as a state machine: a POST changes its state and resolves or is
    rejected. *)
Variable Repo : Type.
Variable post : Repo -> Post -> Repo * result unit.

Definition handler (repo : Repo) (req : Request) : Repo * list Post * Response :=
  let createBranch := PostBranch (branch req) "main" in
  let '(repo1, created) := post repo createBranch in
  match created with
  | Err err => (repo1, [createBranch], Failed "GitLab commit failed" err)
  | Ok _ =>
      let commit :=
        PostCommit (branch req) (commitMessage req)
          [ {| action := "create";
               file_path := filePath req;
               content := code req |} ] in
      let '(repo2, committed) := post repo1 commit in
      match committed with
      | Err err =>
          (repo2, [createBranch; commit], Failed "GitLab commit failed" err)
      | Ok _ => (repo2, [createBranch; commit], Committed)
      end
  end.

End Handler.

Arguments handler {Repo} post repo req.

(** A sample GitLab: the state is the list of branches, each with the paths
    of the files committed to it; creating a branch that exists and
    committing to one that does not are rejected. *)
Definition sampleRepo : Type := list (string * list string).

Definition hasBranch (repo : sampleRepo) (b : string) : bool :=
  existsb (fun entry => String.eqb (fst entry) b) repo.

Definition samplePost (repo : sampleRepo) (p : Post)
  : sampleRepo * result unit :=
  match p with
  | PostBranch b _ =>
      if hasBranch repo b
      then (repo, Err (RequestError (Some 400) "Branch already exists"))
      else ((b, []) :: repo, Ok tt)
  | PostCommit b _ actions =>
      if hasBranch repo b
      then (map (fun entry =>
                   if String.eqb (fst entry) b
                   then (fst entry, snd entry ++ map file_path actions)
                   else entry) repo,
            Ok tt)
      else (repo, Err (RequestError (Some 404) "Branch not found"))
  end.

Definition buttonCommit : Request :=
  {| branch := "feature/primary-button";
     filePath := "src/components/PrimaryButton.tsx";
     code := "export const PrimaryButton = () => null;";
     commitMessage := "Add PrimaryButton" |}.

End CommitComponent.

(** ** The earlier server: extraction without classification *)

Module Legacy.

Module Component.
(** The record of the earlier [extractAllNestedComponents], which copies
    [node.name] as it is, string or not. *)
Record t : Type := mk {
  name : option string;
  id : string;
  path : list (option string);
  type : string;
  description : string;
  width : option Q;
  height : option Q;
  children : nat;
  styles : Styles
}.
End Component.

Definition record (node : Node) (parentPath : list (option string))
  : Component.t :=
  {| Component.name := name node;
     Component.id := id node;
     Component.path := parentPath ++ [name node];
     Component.type := type node;
     Component.description := descriptionOr node;
     Component.width := boxWidth node;
     Component.height := boxHeight node;
     Component.children := childCount node;
     Component.styles := nodeStyles node |}.

(** [node.type === 'COMPONENT' || node.type === 'INSTANCE' ||
    node.type === 'FRAME'] *)
Definition recorded (node : Node) : bool :=
  String.eqb (type node) "COMPONENT"
  || String.eqb (type node) "INSTANCE"
  || String.eqb (type node) "FRAME".

Fixpoint walk (node : Node) (parentPath : list (option string))
  (components : list Component.t) {struct node} : list Component.t :=
  let components1 :=
    if recorded node then components ++ [record node parentPath]
    else components in
  match node with
  | mkNode _ _ _ _ _ _ None => components1
  | mkNode _ _ _ _ _ _ (Some kids) =>
      (fix forEach (l : list Node) (components : list Component.t) {struct l}
         : list Component.t :=
         match l with
         | [] => components
         | child :: l' =>
             forEach l' (walk child (parentPath ++ [name node]) components)
         end) kids components1
  end.

Definition extractAllNestedComponents (document : Node) : list Component.t :=
  walk document [] [].

(** The [forEach] loop of [walk] over a list of children. *)
Fixpoint walkEach (l : list Node) (path : list (option string))
  (components : list Component.t) : list Component.t :=
  match l with
  | [] => components
  | child :: l' => walkEach l' path (walk child path components)
  end.

(** The descriptors of the pre-order listing, with the names as the earlier
    walk accumulates them. *)
Fixpoint descriptors (parentPath : list (option string)) (n : Node)
  : list (list (option string) * Node) :=
  (parentPath, n)
    :: match n with
       | mkNode _ _ _ _ _ _ (Some cs) =>
           flat_map (descriptors (parentPath ++ [name n])) cs
       | mkNode _ _ _ _ _ _ None => []
       end.

(** The record that a descriptor contributes in the earlier walk, if any. *)
Definition own (d : list (option string) * Node) : list Component.t :=
  if recorded (snd d) then [record (snd d) (fst d)] else [].

End Legacy.

(** The earlier record that has the fields of a catalogue record. *)
Definition legacyOfComponent (c : Component.t) : Legacy.Component.t :=
  {| Legacy.Component.name := Some (Component.name c);
     Legacy.Component.id := Component.id c;
     Legacy.Component.path := map Some (Component.path c);
     Legacy.Component.type := Component.type c;
     Legacy.Component.description := Component.description c;
     Legacy.Component.width := Component.width c;
     Legacy.Component.height := Component.height c;
     Legacy.Component.children := Component.children c;
     Legacy.Component.styles := Component.styles c |}.

(** ** More sample values *)

(** A frame without a name that holds a named button. *)
Definition namelessFrame : Node :=
  mkNode None "5:1" "FRAME" None (sized 800 600) noStyles (Some [primaryButton]).

(** An environment where the four required variables are set. *)
Definition fullEnv : Startup.Env :=
  fun v =>
    if String.eqb v "FIGMA_TOKEN" then Some "figd_0123456789"
    else if String.eqb v "OPENAI_API_KEY" then Some "sk-test"
    else if String.eqb v "GITLAB_TOKEN" then Some "glpat-0123"
    else if String.eqb v "GITLAB_PROJECT_ID" then Some "42"
    else None.

(** Services where the registry is found and fetched and the oracle call is
    rejected. *)
Definition servicesWithoutOracle : Services :=
  {| figmaFile := fun _ => Ok homeFile;
     figmaNode := fun _ _ => Ok homeScreen;
     gitlabTree := Ok [registryFileEntry];
     gitlabTreePages := [Ok [registryFileEntry]; Ok []];
     gitlabRaw := fun _ => Ok "export { PrimaryButton }";
     openaiCompare := fun _ _ => Err (RequestError (Some 429) "Rate limit") |}.

(** Services whose document has a node without a name. *)
Definition servicesNameless : Services :=
  {| figmaFile := fun _ =>
       Ok {| document := namelessFrame; fileName := None;
             lastModified := None; version := None |};
     figmaNode := fun _ _ => Ok namelessFrame;
     gitlabTree := Ok [registryFileEntry];
     gitlabTreePages := [Ok [registryFileEntry]; Ok []];
     gitlabRaw := fun _ => Ok "export { PrimaryButton }";
     openaiCompare := fun _ _ => Ok (Json listsEachOnce) |}.

(** * Properties *)

(** ** Strings and numbers *)

Lemma startsWith_iff (p s : string) :
  startsWith s p = true <-> exists b : string, s = (p ++ b)%string.
Proof.
  revert s. induction p as [|c p IH]; intros s; simpl.
  - split; [intros _; now exists s | intros _; now destruct s].
  - destruct s as [|a s]; simpl.
    + split; [discriminate | intros [b Hb]; discriminate].
    + rewrite andb_true_iff, Ascii.eqb_eq, IH. split.
      * intros [-> [b ->]]. now exists b.
      * intros [b Hb]. injection Hb as -> ->. split; [reflexivity | now exists b].
Qed.

Lemma includes_iff (s p : string) :
  includes s p = true <-> occursIn p s.
Proof.
  unfold occursIn. induction s as [|c s IH].
  - cbn [includes]. rewrite orb_false_r, startsWith_iff. split.
    + intros [b Hb]. now exists EmptyString, b.
    + intros [a [b Hab]]. destruct a; [now exists b | discriminate].
  - cbn [includes]. rewrite orb_true_iff, startsWith_iff, IH. split.
    + intros [[b Hb] | [a [b Hab]]].
      * now exists EmptyString, b.
      * exists (String c a), b. simpl. now rewrite Hab.
    + intros [a [b Hab]]. destruct a as [|c' a].
      * left. now exists b.
      * right. simpl in Hab. injection Hab as _ Hs. now exists a, b.
Qed.

Lemma includes_false_iff (s p : string) :
  includes s p = false <-> ~ occursIn p s.
Proof.
  rewrite <- includes_iff. destruct (includes s p); split; congruence.
Qed.

Lemma existsb_includes_iff (s : string) (patterns : list string) :
  existsb (fun pattern => includes s pattern) patterns = true
  <-> exists p, In p patterns /\ occursIn p s.
Proof.
  rewrite existsb_exists. split; intros [p [Hin Hp]]; exists p;
    (split; [assumption | now apply includes_iff]).
Qed.

Lemma jsLt_iff (x : option Q) (k : Q) :
  jsLt x k = true <-> exists v, x = Some v /\ (v < k)%Q.
Proof.
  destruct x as [v|]; simpl.
  - rewrite negb_true_iff. split.
    + intros H. exists v. split; [reflexivity|].
      apply Qnot_le_lt. intros Hle. apply Qle_bool_iff in Hle. congruence.
    + intros [v' [[= <-] Hlt]]. destruct (Qle_bool k v) eqn:E; [|reflexivity].
      apply Qle_bool_iff in E. exfalso. exact (Qlt_not_le _ _ Hlt E).
  - split; [discriminate | intros [v [H _]]; discriminate].
Qed.

Lemma jsGe_iff (x : option Q) (k : Q) :
  jsGe x k = true <-> exists v, x = Some v /\ (k <= v)%Q.
Proof.
  destruct x as [v|]; simpl.
  - rewrite Qle_bool_iff. split.
    + intros H. now exists v.
    + now intros [v' [[= <-] H]].
  - split; [discriminate | intros [v [H _]]; discriminate].
Qed.

Lemma boxWidth_iff (n : Node) (w : Q) :
  boxWidth n = Some w
  <-> exists box, absoluteBoundingBox n = Some box /\ width box = Some w.
Proof.
  unfold boxWidth. destruct (absoluteBoundingBox n) as [b|].
  - split; [intros H; now exists b | now intros [b' [[= <-] H]]].
  - split; [discriminate | intros [b [H _]]; discriminate].
Qed.

Lemma boxHeight_iff (n : Node) (h : Q) :
  boxHeight n = Some h
  <-> exists box, absoluteBoundingBox n = Some box /\ height box = Some h.
Proof.
  unfold boxHeight. destruct (absoluteBoundingBox n) as [b|].
  - split; [intros H; now exists b | now intros [b' [[= <-] H]]].
  - split; [discriminate | intros [b [H _]]; discriminate].
Qed.

Lemma lowerName_named (n : Node) (s : string) :
  name n = Some s -> lowerName n = Ok (toLowerCase s).
Proof. unfold lowerName. now intros ->. Qed.

Lemma lowerName_unnamed (n : Node) :
  name n = None -> lowerName n = Err TypeError.
Proof. unfold lowerName. now intros ->. Qed.

(** ** The atomic-component predicate *)

(** The boolean that [isAtomicComponent] returns for a node named [s]. *)
Lemma isAtomicComponent_named (node : Node) (s : string) :
  name node = Some s ->
  isAtomicComponent node =
  Ok ((String.eqb (type node) "COMPONENT" || String.eqb (type node) "INSTANCE")
      && (existsb (fun pattern => includes (toLowerCase s) pattern) atomicPatterns
          || (jsLt (boxWidth node) 500%Q && jsLt (boxHeight node) 500%Q))).
Proof.
  intros H. unfold isAtomicComponent. now rewrite (lowerName_named _ _ H).
Qed.

Lemma isScreenOrFrame_named (node : Node) (s : string) :
  name node = Some s ->
  isScreenOrFrame node =
  Ok (String.eqb (type node) "FRAME"
      && (existsb (fun pattern => includes (toLowerCase s) pattern) screenPatterns
          || (jsGe (boxWidth node) 500%Q || jsGe (boxHeight node) 500%Q))).
Proof.
  intros H. unfold isScreenOrFrame. now rewrite (lowerName_named _ _ H).
Qed.

(** C2. For a node whose name is the string [s], [isAtomicComponent] returns
    a boolean, and that boolean is true exactly when the type is COMPONENT or
    INSTANCE and either the lower-cased name contains one of the twenty
    patterns, or the bounding box is present with both a width and a height
    strictly below 500.  A missing box or dimension only makes the size
    condition false. *)
Theorem isAtomicComponent_iff (node : Node) (s : string) :
  name node = Some s ->
  exists b : bool,
    isAtomicComponent node = Ok b /\
    (b = true <->
     (type node = "COMPONENT" \/ type node = "INSTANCE") /\
     ((exists p,
          In p [ "button"; "input"; "text"; "icon"; "image"; "avatar";
                 "badge"; "statusbar"; "header"; "footer"; "card"; "list";
                 "tab"; "modal"; "checkbox"; "radio"; "switch"; "slider";
                 "progress"; "spinner" ]
          /\ occursIn p (toLowerCase s))
      \/ (exists box w h,
             absoluteBoundingBox node = Some box /\
             width box = Some w /\ height box = Some h /\
             (w < 500)%Q /\ (h < 500)%Q))).
Proof.
  intros Hname. eexists. split; [exact (isAtomicComponent_named _ _ Hname)|].
  rewrite andb_true_iff, !orb_true_iff, andb_true_iff, !String.eqb_eq.
  rewrite existsb_includes_iff, !jsLt_iff.
  split; intros [Hty Hcond]; (split; [exact Hty|]).
  - destruct Hcond as [Hpat | [[w [Hw Hwlt]] [h [Hh Hhlt]]]]; [now left | right].
    apply boxWidth_iff in Hw. destruct Hw as [box [Hbox Hw]].
    apply boxHeight_iff in Hh. destruct Hh as [box' [Hbox' Hh]].
    assert (box' = box) as -> by congruence.
    now exists box, w, h.
  - destruct Hcond as [Hpat | [box [w [h [Hbox [Hw [Hh [Hwlt Hhlt]]]]]]]];
      [now left | right].
    split; [exists w | exists h]; (split; [|assumption]).
    + apply boxWidth_iff. now exists box.
    + apply boxHeight_iff. now exists box.
Qed.

(** Witness of [isAtomicComponent_iff] on the sample button. *)
Lemma isAtomicComponent_iff_witness :
  name primaryButton = Some "PrimaryButton" /\
  isAtomicComponent primaryButton = Ok true.
Proof.
  split; [reflexivity|].
  destruct (isAtomicComponent_iff primaryButton "PrimaryButton" eq_refl)
    as [b [Hb Hiff]].
  rewrite Hb. f_equal. apply Hiff. split; [now left|].
  left. exists "button". split; [simpl; tauto|].
  now exists "primary", "".
Defined.

(** ** Totality of the classifier *)

Lemma determineComponentCategory_named (node : Node) (s : string) :
  name node = Some s ->
  determineComponentCategory node = Ok (firstMatch categoryRules (toLowerCase s)).
Proof.
  intros H. unfold determineComponentCategory.
  rewrite (lowerName_named _ _ H). cbn [Js.bind firstMatch categoryRules existsb].
  rewrite !orb_false_r.
  repeat match goal with
         | |- context [if ?b then _ else _] => destruct b; [reflexivity|]
         end.
  reflexivity.
Qed.

(** ** The three outcomes *)

Lemma Ok_inj (A : Type) (a b : A) : Ok a = Ok b -> a = b.
Proof.
  intros H.
  exact (f_equal (fun r => match r with Ok x => x | Err _ => a end) H).
Qed.

Lemma isAtomic_isScreen_exclusive (node : Node) :
  isAtomicComponent node = Ok true -> isScreenOrFrame node = Ok true -> False.
Proof.
  intros Ha Hs. destruct (name node) as [s|] eqn:E.
  - rewrite (isAtomicComponent_named _ _ E) in Ha.
    rewrite (isScreenOrFrame_named _ _ E) in Hs.
    injection Ha as Ha. injection Hs as Hs.
    apply andb_true_iff in Ha. destruct Ha as [Ha _].
    apply andb_true_iff in Hs. destruct Hs as [Hs _].
    apply String.eqb_eq in Hs. rewrite Hs in Ha. discriminate.
  - unfold isAtomicComponent in Ha. now rewrite (lowerName_unnamed _ E) in Ha.
Qed.

(** The three ways [visit] can go on a named node. *)
Lemma visit_cases (node : Node) (s : string) (parentPath : list string)
  (acc : Extracted) :
  name node = Some s ->
  (isAtomicComponent node = Ok true /\
   visit node parentPath acc
   = Ok (pushComponent acc
           (componentRecord node parentPath
              (firstMatch categoryRules (toLowerCase s)))))
  \/ (isAtomicComponent node = Ok false /\ isScreenOrFrame node = Ok true /\
      visit node parentPath acc = Ok (pushScreen acc (screenRecord node)))
  \/ (isAtomicComponent node = Ok false /\ isScreenOrFrame node = Ok false /\
      visit node parentPath acc = Ok acc).
Proof.
  intros H. unfold visit.
  rewrite (determineComponentCategory_named _ _ H),
    (isAtomicComponent_named _ _ H), (isScreenOrFrame_named _ _ H).
  cbn [Js.bind].
  match goal with |- context [Ok ?a = Ok true] => destruct a end;
    [left; now split | right].
  cbn [Js.bind].
  match goal with |- context [Ok ?a = Ok true] => destruct a end;
    [left | right]; now repeat split.
Qed.

Lemma pushComponent_neq (acc : Extracted) (c : Component.t) :
  pushComponent acc c <> acc.
Proof.
  intros H. apply (f_equal (fun e => List.length (atomicComponents e))) in H.
  simpl in H. rewrite length_app in H. simpl in H. lia.
Qed.

Lemma pushScreen_neq (acc : Extracted) (s : Screen.t) :
  pushScreen acc s <> acc.
Proof.
  intros H. apply (f_equal (fun e => List.length (screens e))) in H.
  simpl in H. rewrite length_app in H. simpl in H. lia.
Qed.

Lemma pushComponent_pushScreen_neq (acc : Extracted) (c : Component.t)
  (s : Screen.t) :
  pushComponent acc c <> pushScreen acc s.
Proof.
  intros H. apply (f_equal (fun e => List.length (atomicComponents e))) in H.
  simpl in H. rewrite length_app in H. simpl in H. lia.
Qed.

(** C3. On a named node the head of the walk yields exactly one of the three
    outcomes.  A node for which the atomic predicate is true is recorded as a
    component and never as a screen; it is recorded as a screen exactly when
    the atomic predicate is false and the screen predicate is true, the
    latter meaning: type FRAME, and a screen keyword in the lower-cased name
    or a present width or height of at least 500. *)
Theorem classification_exclusive (node : Node) (s : string)
  (parentPath : list string) (acc : Extracted) :
  name node = Some s ->
  (exists! k, classifiedAs node parentPath acc k) /\
  (classifiedAs node parentPath acc AtomicComponent
   <-> isAtomicComponent node = Ok true) /\
  (classifiedAs node parentPath acc ScreenOrFrame
   <-> isAtomicComponent node = Ok false /\ isScreenOrFrame node = Ok true) /\
  (classifiedAs node parentPath acc Neither
   <-> isAtomicComponent node = Ok false /\ isScreenOrFrame node = Ok false) /\
  (isAtomicComponent node = Ok true ->
   ~ classifiedAs node parentPath acc ScreenOrFrame) /\
  (isScreenOrFrame node = Ok true <->
   type node = "FRAME" /\
   ((exists p,
        In p [ "page"; "screen"; "view"; "layout"; "container"; "section";
               "home"; "dashboard"; "profile"; "settings" ]
        /\ occursIn p (toLowerCase s))
    \/ (exists box w,
           absoluteBoundingBox node = Some box /\ width box = Some w /\
           (500 <= w)%Q)
    \/ (exists box h,
           absoluteBoundingBox node = Some box /\ height box = Some h /\
           (500 <= h)%Q))).
Proof.
  intros H.
  assert (Hatomic : classifiedAs node parentPath acc AtomicComponent
                    <-> isAtomicComponent node = Ok true).
  { destruct (visit_cases _ _ parentPath acc H)
      as [[Ha Hv] | [[Ha [Hs Hv]] | [Ha [Hs Hv]]]]; simpl; rewrite Ha, Hv.
    - split; [reflexivity|]. intros _. eexists. split; [|reflexivity].
      exact (determineComponentCategory_named _ _ H).
    - split; [|discriminate]. intros [cat [_ E]]. apply Ok_inj in E.
      symmetry in E. now apply pushComponent_pushScreen_neq in E.
    - split; [|discriminate]. intros [cat [_ E]]. apply Ok_inj in E.
      symmetry in E. now apply pushComponent_neq in E. }
  assert (Hscreen : classifiedAs node parentPath acc ScreenOrFrame
                    <-> isAtomicComponent node = Ok false
                        /\ isScreenOrFrame node = Ok true).
  { destruct (visit_cases _ _ parentPath acc H)
      as [[Ha Hv] | [[Ha [Hs Hv]] | [Ha [Hs Hv]]]]; simpl; rewrite Ha, Hv.
    - split; [|intros [E _]; discriminate]. intros E. apply Ok_inj in E.
      now apply pushComponent_pushScreen_neq in E.
    - rewrite Hs. now split.
    - rewrite Hs. split; [|intros [_ E]; discriminate]. intros E.
      apply Ok_inj in E. symmetry in E. now apply pushScreen_neq in E. }
  assert (Hneither : classifiedAs node parentPath acc Neither
                     <-> isAtomicComponent node = Ok false
                         /\ isScreenOrFrame node = Ok false).
  { destruct (visit_cases _ _ parentPath acc H)
      as [[Ha Hv] | [[Ha [Hs Hv]] | [Ha [Hs Hv]]]]; simpl; rewrite Ha, Hv.
    - split; [|intros [E _]; discriminate]. intros E. apply Ok_inj in E.
      now apply pushComponent_neq in E.
    - rewrite Hs. split; [|intros [_ E]; discriminate]. intros E.
      apply Ok_inj in E. now apply pushScreen_neq in E.
    - rewrite Hs. now split. }
  split; [|split; [exact Hatomic | split; [exact Hscreen | split;
    [exact Hneither | split]]]].
  - destruct (visit_cases _ _ parentPath acc H)
      as [[Ha Hv] | [[Ha [Hs Hv]] | [Ha [Hs Hv]]]].
    + exists AtomicComponent. split; [now apply Hatomic|].
      intros [| |] Hk; [reflexivity | |].
      * apply Hscreen in Hk. destruct Hk as [E _]. congruence.
      * apply Hneither in Hk. destruct Hk as [E _]. congruence.
    + exists ScreenOrFrame. split; [now apply Hscreen|].
      intros [| |] Hk; [| reflexivity |].
      * apply Hatomic in Hk. congruence.
      * apply Hneither in Hk. destruct Hk as [_ E]. congruence.
    + exists Neither. split; [now apply Hneither|].
      intros [| |] Hk; [| | reflexivity].
      * apply Hatomic in Hk. congruence.
      * apply Hscreen in Hk. destruct Hk as [_ E]. congruence.
  - intros Ha Hk. apply Hscreen in Hk. destruct Hk as [E _]. congruence.
  - rewrite (isScreenOrFrame_named _ _ H).
    split.
    + intros E. injection E as E.
      apply andb_true_iff in E. destruct E as [Hty Hcond].
      apply String.eqb_eq in Hty. split; [exact Hty|].
      apply orb_true_iff in Hcond. destruct Hcond as [Hp | Hlarge].
      * left. now apply existsb_includes_iff.
      * right. apply orb_true_iff in Hlarge. destruct Hlarge as [Hw | Hh].
        -- left. apply jsGe_iff in Hw. destruct Hw as [w [Hw Hle]].
           apply boxWidth_iff in Hw. destruct Hw as [box [Hbox Hw]].
           now exists box, w.
        -- right. apply jsGe_iff in Hh. destruct Hh as [h [Hh Hle]].
           apply boxHeight_iff in Hh. destruct Hh as [box [Hbox Hh]].
           now exists box, h.
    + intros [Hty Hcond]. f_equal. apply andb_true_iff.
      split; [now apply String.eqb_eq|]. apply orb_true_iff.
      destruct Hcond as [Hp | [[box [w [Hbox [Hw Hle]]]] | [box [h [Hbox [Hh Hle]]]]]].
      * left. now apply existsb_includes_iff.
      * right. apply orb_true_iff. left. apply jsGe_iff. exists w.
        split; [|exact Hle]. apply boxWidth_iff. now exists box.
      * right. apply orb_true_iff. right. apply jsGe_iff. exists h.
        split; [|exact Hle]. apply boxHeight_iff. now exists box.
Qed.

(** Witness of [classification_exclusive] on the sample screen: it is
    recorded as a screen. *)
Lemma classification_exclusive_witness :
  name homeScreen = Some "HomeScreen" /\
  classifiedAs homeScreen [] noneExtracted ScreenOrFrame.
Proof.
  split; [reflexivity|].
  destruct (classification_exclusive homeScreen "HomeScreen" [] noneExtracted
              eq_refl) as (_ & _ & Hscreen & _).
  apply Hscreen. split; reflexivity.
Defined.

(** ** The category rule *)

Lemma rowMatches_iff (lowered : string) (row : list string * Category) :
  existsb (fun pattern => includes lowered pattern) (fst row) = true
  <-> rowMatches lowered row.
Proof. apply existsb_includes_iff. Qed.

Lemma firstMatch_no_row (rules : list (list string * Category))
  (lowered : string) :
  (forall r, In r rules -> ~ rowMatches lowered r) ->
  firstMatch rules lowered = OTHER.
Proof.
  induction rules as [|[patterns cat] rest IH]; intros Hno; simpl;
    [reflexivity|].
  destruct (existsb _ patterns) eqn:E.
  - exfalso. apply (Hno (patterns, cat)); [now left|].
    now apply rowMatches_iff.
  - apply IH. intros r Hr. apply Hno. now right.
Qed.

Lemma firstMatch_sound (rules : list (list string * Category))
  (lowered : string) :
  firstMatchIs rules lowered (firstMatch rules lowered).
Proof.
  induction rules as [|[patterns cat] rest IH]; simpl.
  - right. split; [reflexivity | intros r []].
  - destruct (existsb _ patterns) eqn:E.
    + left. exists [], (patterns, cat), rest. repeat split.
      * now apply rowMatches_iff.
      * intros r [].
    + assert (Hhead : ~ rowMatches lowered (patterns, cat)).
      { intros Hm. apply rowMatches_iff in Hm. simpl in Hm. congruence. }
      destruct IH as [(before & row & after & Hsplit & Hcat & Hm & Hno) | [Hcat Hno]].
      * left. exists ((patterns, cat) :: before), row, after. repeat split.
        -- simpl. now rewrite Hsplit.
        -- exact Hcat.
        -- exact Hm.
        -- intros r [<- | Hr]; [exact Hhead | now apply Hno].
      * right. split; [exact Hcat|].
        intros r [<- | Hr]; [exact Hhead | now apply Hno].
Qed.

Lemma firstMatch_complete (rules : list (list string * Category))
  (lowered : string) (cat : Category) :
  firstMatchIs rules lowered cat -> cat = firstMatch rules lowered.
Proof.
  intros [(before & row & after & -> & <- & Hm & Hno) | [-> Hno]].
  - induction before as [|[patterns cat] before IH]; simpl.
    + destruct row as [patterns cat]. apply rowMatches_iff in Hm. simpl in Hm.
      now rewrite Hm.
    + destruct (existsb _ patterns) eqn:E.
      * exfalso. apply (Hno (patterns, cat)); [now left|].
        now apply rowMatches_iff.
      * apply IH. intros r Hr. apply Hno. now right.
  - symmetry. now apply firstMatch_no_row.
Qed.

(** C4. For a node named [s], [determineComponentCategory] returns the
    category of the first row, in the order statusbar, button,
    input/textfield, text, icon, image, avatar, badge, card, list, tab,
    modal, one of whose substrings occurs in the lower-cased name, and OTHER
    when no row matches; a node named TextIcon gets TEXT and a node named
    IconButton gets BUTTON. *)
Theorem determineComponentCategory_first_match :
  (forall node s cat,
      name node = Some s ->
      determineComponentCategory node = Ok cat
      <-> firstMatchIs
            [ (["statusbar"], STATUS_BAR); (["button"], BUTTON);
              (["input"; "textfield"], INPUT); (["text"], TEXT);
              (["icon"], ICON); (["image"], IMAGE); (["avatar"], AVATAR);
              (["badge"], BADGE); (["card"], CARD); (["list"], LIST);
              (["tab"], TAB); (["modal"], MODAL) ]
            (toLowerCase s) cat) /\
  (forall node,
      name node = Some "TextIcon" -> determineComponentCategory node = Ok TEXT) /\
  (forall node,
      name node = Some "IconButton" ->
      determineComponentCategory node = Ok BUTTON).
Proof.
  split; [|split].
  - intros node s cat H. rewrite (determineComponentCategory_named _ _ H).
    fold categoryRules. split.
    + intros E. apply Ok_inj in E. subst cat. apply firstMatch_sound.
    + intros Hm. f_equal. symmetry. now apply firstMatch_complete.
  - intros node H. now rewrite (determineComponentCategory_named _ _ H).
  - intros node H. now rewrite (determineComponentCategory_named _ _ H).
Qed.

(** Witness of [determineComponentCategory_first_match] on a node named
    TextIcon. *)
Lemma determineComponentCategory_first_match_witness :
  name (mkNode (Some "TextIcon") "3:1" "COMPONENT" None None noStyles None)
  = Some "TextIcon" /\
  determineComponentCategory
    (mkNode (Some "TextIcon") "3:1" "COMPONENT" None None noStyles None)
  = Ok TEXT.
Proof.
  split; [reflexivity|].
  destruct determineComponentCategory_first_match as (_ & Htext & _).
  apply Htext. reflexivity.
Defined.

(** ** The tree walk *)

(** Induction on a document tree, with the hypothesis for all children. *)
Fixpoint Node_induction (P : Node -> Prop)
  (Hleaf : forall nm i t d b st, P (mkNode nm i t d b st None))
  (Hkids : forall nm i t d b st cs,
      Forall P cs -> P (mkNode nm i t d b st (Some cs)))
  (n : Node) {struct n} : P n :=
  match n with
  | mkNode nm i t d b st None => Hleaf nm i t d b st
  | mkNode nm i t d b st (Some cs) =>
      Hkids nm i t d b st cs
        ((fix all (l : list Node) : Forall P l :=
            match l with
            | [] => Forall_nil P
            | c :: l' => Forall_cons c (Node_induction P Hleaf Hkids c) (all l')
            end) cs)
  end.

Lemma preorder_unfold (n : Node) :
  preorder n = n :: flat_map preorder (kids n).
Proof. now destruct n as [nm i t d b st [cs|]]. Qed.

Lemma descriptors_unfold (p : list string) (n : Node) :
  descriptors p n
  = (p, n) :: flat_map (descriptors (p ++ [nameStr n])) (kids n).
Proof. now destruct n as [nm i t d b st [cs|]]. Qed.

Lemma size_unfold (n : Node) :
  size n = S (list_sum (map size (kids n))).
Proof. now destruct n as [nm i t d b st [cs|]]. Qed.

Lemma walk_unfold (node : Node) (parentPath : list string) (acc : Extracted) :
  walk node parentPath acc
  = (acc1 <- visit node parentPath acc ;;
     walkEach (kids node) (parentPath ++ [nameStr node]) acc1).
Proof.
  destruct node as [nm i t d b st [cs|]]; cbn [walk kids children].
  - destruct (visit _ parentPath acc) as [acc1|e]; [|reflexivity].
    cbn [Js.bind]. generalize acc1. clear acc1.
    induction cs as [|c cs IH]; intros acc1; [reflexivity|].
    cbn [walkEach]. destruct (walk c _ acc1) as [acc2|e]; [|reflexivity].
    cbn [Js.bind]. apply IH.
  - now destruct (visit _ parentPath acc).
Qed.

Lemma forallb_flat_map (A B : Type) (f : B -> bool) (g : A -> list B)
  (l : list A) :
  forallb f (flat_map g l) = forallb (fun x => forallb f (g x)) l.
Proof.
  induction l as [|x l IH]; [reflexivity|].
  simpl. now rewrite forallb_app, IH.
Qed.

Lemma allNamed_unfold (n : Node) :
  allNamed n = true
  <-> (exists s, name n = Some s) /\ Forall (fun c => allNamed c = true) (kids n).
Proof.
  unfold allNamed at 1. rewrite preorder_unfold. cbn [forallb].
  rewrite andb_true_iff, forallb_flat_map, forallb_forall, Forall_forall.
  split; intros [Hn Hk]; (split; [|exact Hk]).
  - destruct (name n) as [s|]; [now exists s | discriminate].
  - destruct Hn as [s ->]. reflexivity.
Qed.

(** What [visit] appends on a named node. *)
Lemma visit_own (node : Node) (s : string) (parentPath : list string)
  (acc : Extracted) :
  name node = Some s ->
  visit node parentPath acc
  = Ok {| atomicComponents := atomicComponents acc ++ ownComponent node parentPath;
          screens := screens acc ++ ownScreen node |}.
Proof.
  intros H. unfold ownComponent, ownScreen.
  destruct (visit_cases node s parentPath acc H)
    as [[Ha Hv] | [[Ha [Hs Hv]] | [Ha [Hs Hv]]]]; rewrite Hv, Ha.
  - rewrite (determineComponentCategory_named _ _ H).
    unfold pushComponent. now rewrite app_nil_r.
  - rewrite Hs. unfold pushScreen. now rewrite app_nil_r.
  - rewrite Hs. destruct acc. simpl. now rewrite !app_nil_r.
Qed.

(** The records appended for a list of descriptors. *)
Lemma walkEach_descriptors (cs : list Node) (q : list string) :
  Forall (fun c =>
            forall p acc,
              walk c p acc
              = Ok {| atomicComponents :=
                        atomicComponents acc
                        ++ flat_map (fun d => ownComponent (snd d) (fst d))
                                    (descriptors p c);
                      screens :=
                        screens acc
                        ++ flat_map (fun d => ownScreen (snd d))
                                    (descriptors p c) |}) cs ->
  forall acc,
    walkEach cs q acc
    = Ok {| atomicComponents :=
              atomicComponents acc
              ++ flat_map (fun d => ownComponent (snd d) (fst d))
                          (flat_map (descriptors q) cs);
            screens :=
              screens acc
              ++ flat_map (fun d => ownScreen (snd d))
                          (flat_map (descriptors q) cs) |}.
Proof.
  induction 1 as [|c cs Hc _ IH]; intros acc.
  - destruct acc. cbn. now rewrite !app_nil_r.
  - cbn [walkEach]. rewrite Hc. cbn [Js.bind]. rewrite IH.
    cbn [atomicComponents screens flat_map].
    now rewrite !flat_map_app, !app_assoc.
Qed.

(** The walk of a tree whose nodes are all named returns, having appended
    the records of the descriptors of the pre-order listing, in order. *)
Lemma walk_descriptors (n : Node) :
  allNamed n = true ->
  forall (p : list string) (acc : Extracted),
    walk n p acc
    = Ok {| atomicComponents :=
              atomicComponents acc
              ++ flat_map (fun d => ownComponent (snd d) (fst d)) (descriptors p n);
            screens :=
              screens acc
              ++ flat_map (fun d => ownScreen (snd d)) (descriptors p n) |}.
Proof.
  induction n as [nm i t d b st | nm i t d b st cs IH] using Node_induction;
    intros Hnamed p acc; rewrite walk_unfold, descriptors_unfold;
    apply allNamed_unfold in Hnamed; destruct Hnamed as [[s Hs] Hkids];
    rewrite (visit_own _ s p acc Hs); cbn [Js.bind kids children].
  - cbn. now rewrite !app_nil_r.
  - cbn [kids children] in Hkids. rewrite walkEach_descriptors.
    + cbn [atomicComponents screens flat_map fst snd].
      now rewrite <- !app_assoc.
    + rewrite Forall_forall in *. intros c Hc. apply IH; [exact Hc|].
      now apply Hkids.
Qed.

Lemma map_flat_map (A B C : Type) (f : B -> C) (g : A -> list B) (l : list A) :
  map f (flat_map g l) = flat_map (fun x => map f (g x)) l.
Proof.
  induction l as [|x l IH]; [reflexivity|].
  simpl. now rewrite map_app, IH.
Qed.

Lemma flat_map_ext_Forall (A B : Type) (f g : A -> list B) (l : list A) :
  Forall (fun x => f x = g x) l -> flat_map f l = flat_map g l.
Proof.
  induction 1 as [|x l Hx _ IH]; [reflexivity|]. simpl. now rewrite Hx, IH.
Qed.

Lemma length_flat_map (A B : Type) (g : A -> list B) (l : list A) :
  List.length (flat_map g l) = list_sum (map (fun x => List.length (g x)) l).
Proof.
  induction l as [|x l IH]; [reflexivity|].
  simpl. now rewrite length_app, IH.
Qed.

(** The descriptors list the nodes in pre-order. *)
Lemma descriptors_preorder (n : Node) (p : list string) :
  map snd (descriptors p n) = preorder n.
Proof.
  revert p.
  induction n as [nm i t d b st | nm i t d b st cs IH] using Node_induction;
    intros p; [reflexivity|].
  rewrite descriptors_unfold, preorder_unfold. cbn [map snd kids children].
  f_equal. rewrite map_flat_map. apply flat_map_ext_Forall.
  apply Forall_forall. rewrite Forall_forall in IH. intros c Hc. now apply IH.
Qed.

(** The pre-order listing has one entry per node of the tree. *)
Lemma preorder_length (n : Node) :
  List.length (preorder n) = size n.
Proof.
  induction n as [nm i t d b st | nm i t d b st cs IH] using Node_induction;
    [reflexivity|].
  rewrite preorder_unfold, size_unfold. cbn [List.length kids children].
  f_equal. rewrite length_flat_map. f_equal.
  induction IH as [|c cs Hc _ IHcs]; [reflexivity|]. simpl. now rewrite Hc, IHcs.
Qed.

Lemma names_snoc (chain : list Node) (n : Node) :
  names (chain ++ [n]) = names chain ++ [nameStr n].
Proof. unfold names. now rewrite map_app. Qed.

Lemma ancestry_under (root c : Node) (chain : list Node) (m : Node) :
  In c (kids root) -> ancestry c chain m -> ancestry root (root :: chain) m.
Proof.
  intros Hc. induction 1 as [|chain parent child _ IH Hchild].
  - exact (ancestry_child root [] root c (ancestry_root root) Hc).
  - exact (ancestry_child root (root :: chain) parent child IH Hchild).
Qed.

Lemma descriptors_child (root : Node) :
  forall p q parent child,
    In (q, parent) (descriptors p root) ->
    In child (kids parent) ->
    In (q ++ [nameStr parent], child) (descriptors p root).
Proof.
  induction root as [nm i t d b st | nm i t d b st cs IH] using Node_induction;
    intros p q parent child Hin Hchild; rewrite descriptors_unfold in *;
    cbn [kids children flat_map] in *.
  - destruct Hin as [[= <- <-] | []]. destruct Hchild.
  - right. apply in_flat_map. destruct Hin as [[= <- <-] | Hin].
    + exists child. split; [exact Hchild|].
      rewrite descriptors_unfold. now left.
    + apply in_flat_map in Hin. destruct Hin as [c [Hc Hin]].
      exists c. split; [exact Hc|].
      rewrite Forall_forall in IH. now apply (IH c Hc _ _ parent).
Qed.

(** A descriptor pairs a node of the tree with the names of its strict
    ancestors, outermost first. *)
Lemma descriptors_ancestry (root : Node) (p q : list string) (m : Node) :
  In (q, m) (descriptors p root)
  <-> exists chain, ancestry root chain m /\ q = p ++ names chain.
Proof.
  split.
  - revert p.
    induction root as [nm i t d b st | nm i t d b st cs IH] using Node_induction;
      intros p Hin; rewrite descriptors_unfold in Hin;
      cbn [kids children flat_map] in Hin.
    + destruct Hin as [[= <- <-] | []]. exists []. split; [constructor|].
      unfold names. simpl. now rewrite app_nil_r.
    + destruct Hin as [[= <- <-] | Hin].
      * exists []. split; [constructor|]. unfold names. simpl.
        now rewrite app_nil_r.
      * apply in_flat_map in Hin. destruct Hin as [c [Hc Hin]].
        rewrite Forall_forall in IH.
        destruct (IH c Hc _ Hin) as [chain [Hanc ->]].
        exists (mkNode nm i t d b st (Some cs) :: chain). split.
        -- now apply (ancestry_under _ c).
        -- unfold names. simpl. now rewrite <- app_assoc.
  - intros [chain [Hanc ->]].
    induction Hanc as [|chain parent child _ IH Hchild].
    + unfold names. simpl. rewrite app_nil_r, descriptors_unfold. now left.
    + rewrite names_snoc, app_assoc. now apply descriptors_child.
Qed.

Lemma in_ownComponent (node : Node) (p : list string) (c : Component.t) :
  In c (ownComponent node p)
  <-> exists cat,
        isAtomicComponent node = Ok true /\
        determineComponentCategory node = Ok cat /\
        c = componentRecord node p cat.
Proof.
  unfold ownComponent. split.
  - destruct (isAtomicComponent node) as [[|]|]; simpl; try tauto.
    destruct (determineComponentCategory node) as [cat|]; simpl; [|tauto].
    intros [<- | []]. now exists cat.
  - intros (cat & -> & -> & ->). now left.
Qed.

Lemma in_ownScreen (node : Node) (s : Screen.t) :
  In s (ownScreen node)
  <-> isAtomicComponent node = Ok false /\
      isScreenOrFrame node = Ok true /\
      s = screenRecord node.
Proof.
  unfold ownScreen. split.
  - destruct (isAtomicComponent node) as [[|]|]; simpl; try tauto.
    destruct (isScreenOrFrame node) as [[|]|]; simpl; try tauto.
    intros [<- | []]. now repeat split.
  - intros (-> & -> & ->). now left.
Qed.

Lemma walk_leaf (node : Node) (parentPath : list string) (acc : Extracted) :
  kids node = [] -> walk node parentPath acc = visit node parentPath acc.
Proof.
  intros H. rewrite walk_unfold, H.
  now destruct (visit node parentPath acc).
Qed.

Lemma flat_map_flat_map (A B C : Type) (f : B -> list C) (g : A -> list B)
  (l : list A) :
  flat_map f (flat_map g l) = flat_map (fun x => flat_map f (g x)) l.
Proof.
  induction l as [|x l IH]; [reflexivity|].
  simpl. now rewrite flat_map_app, IH.
Qed.

Lemma isAtomicComponent_Ok_named (node : Node) (b : bool) :
  isAtomicComponent node = Ok b -> exists s, name node = Some s.
Proof.
  intros H. destruct (name node) as [s|] eqn:E; [now exists s|].
  unfold isAtomicComponent in H. now rewrite (lowerName_unnamed _ E) in H.
Qed.

Lemma catalogueOf_descriptors (n : Node) (p : list string) :
  allNamed n = true ->
  catalogueOf n p
  = flat_map (fun d => ownComponent (snd d) (fst d)) (descriptors p n).
Proof.
  intros H. unfold catalogueOf. now rewrite (walk_descriptors n H).
Qed.

Lemma screensOf_descriptors (n : Node) (p : list string) :
  allNamed n = true ->
  screensOf n p = flat_map (fun d => ownScreen (snd d)) (descriptors p n).
Proof.
  intros H. unfold screensOf. now rewrite (walk_descriptors n H).
Qed.

(** C5. The walk of a document whose nodes are all named returns; its
    catalogue and its screen list are the records of the descriptors of the
    depth-first pre-order listing, taken in that order, one descriptor per
    node of the tree; each descriptor carries the names of the strict
    ancestors of its node from the root down, and the path of each emitted
    component is those names followed by the node's own name.  A node
    without children, or with an empty children array, is a leaf: its walk is
    its own visit. *)
Theorem walk_preorder_once :
  (forall document,
      allNamed document = true ->
      exists found,
        extractAllNestedComponents document = Ok found /\
        atomicComponents found
        = flat_map (fun d => ownComponent (snd d) (fst d))
                   (descriptors [] document) /\
        screens found
        = flat_map (fun d => ownScreen (snd d)) (descriptors [] document) /\
        map snd (descriptors [] document) = preorder document /\
        List.length (descriptors [] document) = size document /\
        (forall q m,
            In (q, m) (descriptors [] document)
            <-> exists chain, ancestry document chain m /\ q = names chain) /\
        (forall c,
            In c (atomicComponents found) ->
            exists chain m,
              ancestry document chain m /\
              Component.name c = nameStr m /\
              Component.path c = names chain ++ [nameStr m])) /\
  (forall n, preorder n = n :: flat_map preorder (kids n)) /\
  (forall node parentPath acc,
      kids node = [] -> walk node parentPath acc = visit node parentPath acc).
Proof.
  split; [|split; [exact preorder_unfold | exact walk_leaf]].
  intros document Hnamed. eexists. split.
  { unfold extractAllNestedComponents. apply (walk_descriptors _ Hnamed). }
  cbn [atomicComponents screens noneExtracted app].
  repeat split.
  - apply descriptors_preorder.
  - rewrite <- preorder_length, <- (descriptors_preorder document []).
    now rewrite length_map.
  - intros Hin. apply descriptors_ancestry in Hin. exact Hin.
  - intros Hex. apply descriptors_ancestry. exact Hex.
  - intros c Hc. apply in_flat_map in Hc. destruct Hc as [[q m] [Hd Hc]].
    cbn [fst snd] in Hc. apply in_ownComponent in Hc.
    destruct Hc as (cat & _ & _ & ->).
    apply descriptors_ancestry in Hd. destruct Hd as [chain [Hanc ->]].
    now exists chain, m.
Qed.

(** Witness of [walk_preorder_once] on the sample home screen. *)
Lemma walk_preorder_once_witness :
  allNamed homeScreen = true /\
  exists found,
    extractAllNestedComponents homeScreen = Ok found /\
    map Component.path (atomicComponents found)
    = [ ["HomeScreen"; "PrimaryButton"]; ["HomeScreen"; "UserAvatar"] ] /\
    map Screen.name (screens found) = ["HomeScreen"].
Proof.
  split; [reflexivity|].
  destruct walk_preorder_once as [H _].
  destruct (H homeScreen eq_refl) as (found & Hfound & Hcat & Hscr & _).
  exists found. split; [exact Hfound|]. rewrite Hcat, Hscr.
  split; reflexivity.
Defined.

(** C10. The walk of a named tree returns, and what it collects is the
    node's own record, if it has one, followed by what the walks of its
    children collect, child after child, whatever the node's own
    classification.  Hence every node of the tree for which the atomic
    predicate holds has its own component record in the catalogue, under any
    chain of ancestors, and every node classified as a screen has its record
    in the screen list. *)
Theorem walk_recurses_regardless (n : Node) (p : list string) :
  allNamed n = true ->
  (exists found, walk n p noneExtracted = Ok found) /\
  catalogueOf n p
  = ownComponent n p
    ++ flat_map (fun c => catalogueOf c (p ++ [nameStr n])) (kids n) /\
  screensOf n p
  = ownScreen n ++ flat_map (fun c => screensOf c (p ++ [nameStr n])) (kids n) /\
  (forall chain m,
      ancestry n chain m ->
      isAtomicComponent m = Ok true ->
      exists cat,
        determineComponentCategory m = Ok cat /\
        In (componentRecord m (p ++ names chain) cat) (catalogueOf n p)) /\
  (forall chain m,
      ancestry n chain m ->
      isAtomicComponent m = Ok false ->
      isScreenOrFrame m = Ok true ->
      In (screenRecord m) (screensOf n p)).
Proof.
  intros Hnamed.
  assert (Hkids : Forall (fun c => allNamed c = true) (kids n))
    by now apply allNamed_unfold.
  split; [|split; [|split; [|split]]].
  - eexists. apply (walk_descriptors _ Hnamed).
  - rewrite (catalogueOf_descriptors _ p Hnamed), descriptors_unfold.
    cbn [flat_map fst snd]. f_equal. rewrite flat_map_flat_map.
    apply flat_map_ext_Forall. rewrite Forall_forall in *. intros c Hc.
    symmetry. apply catalogueOf_descriptors. now apply Hkids.
  - rewrite (screensOf_descriptors _ p Hnamed), descriptors_unfold.
    cbn [flat_map fst snd]. f_equal. rewrite flat_map_flat_map.
    apply flat_map_ext_Forall. rewrite Forall_forall in *. intros c Hc.
    symmetry. apply screensOf_descriptors. now apply Hkids.
  - intros chain m Hanc Ha.
    destruct (isAtomicComponent_Ok_named _ _ Ha) as [s Hs].
    exists (firstMatch categoryRules (toLowerCase s)).
    split; [exact (determineComponentCategory_named _ _ Hs)|].
    rewrite (catalogueOf_descriptors _ p Hnamed). apply in_flat_map.
    exists (p ++ names chain, m). split.
    + apply descriptors_ancestry. now exists chain.
    + apply in_ownComponent. eexists. repeat split; [exact Ha|].
      exact (determineComponentCategory_named _ _ Hs).
  - intros chain m Hanc Ha Hs.
    rewrite (screensOf_descriptors _ p Hnamed). apply in_flat_map.
    exists (p ++ names chain, m). split.
    + apply descriptors_ancestry. now exists chain.
    + apply in_ownScreen. now repeat split.
Qed.

(** Witness of [walk_recurses_regardless]: a button instance inside a card
    component has its own record after the card's. *)
Lemma walk_recurses_regardless_witness :
  allNamed buttonInCard = true /\
  map Component.path (catalogueOf buttonInCard [])
  = [ ["OfferCard"]; ["OfferCard"; "BuyButton"] ].
Proof.
  split; [reflexivity|].
  destruct (walk_recurses_regardless buttonInCard [] eq_refl)
    as (_ & Hcat & _).
  rewrite Hcat. reflexivity.
Defined.

(** ** Nodes without a name *)

Lemma allNamed_eq (n : Node) :
  allNamed n
  = (match name n with Some _ => true | None => false end)
    && forallb allNamed (kids n).
Proof.
  unfold allNamed at 1. rewrite preorder_unfold. cbn [forallb].
  now rewrite forallb_flat_map.
Qed.

(** The walk throws on a tree one of whose nodes has no name. *)
Lemma walk_unnamed (n : Node) :
  allNamed n = false ->
  forall p acc, walk n p acc = Err TypeError.
Proof.
  induction n as [nm i t d b st | nm i t d b st cs IH] using Node_induction;
    intros Hn p acc; rewrite allNamed_eq in Hn; rewrite walk_unfold;
    cbn [name kids children forallb] in *.
  - destruct nm as [s|]; [now rewrite andb_true_r in Hn|].
    unfold visit, isAtomicComponent. now rewrite lowerName_unnamed.
  - destruct nm as [s|].
    + rewrite (visit_own (mkNode (Some s) i t d b st (Some cs)) s p acc eq_refl).
      cbn [Js.bind andb] in *.
      generalize (p ++ [nameStr (mkNode (Some s) i t d b st (Some cs))]).
      intros q.
      match goal with |- walkEach cs q ?a = _ => generalize a end.
      induction IH as [|c cs Hc _ IHcs]; intros acc1; [discriminate|].
      cbn [forallb walkEach] in *.
      destruct (allNamed c) eqn:Ec.
      * rewrite (walk_descriptors c Ec). cbn [Js.bind]. now apply IHcs.
      * now rewrite (Hc eq_refl).
    + unfold visit, isAtomicComponent. now rewrite lowerName_unnamed.
Qed.

(** C9. Each of the three classification functions returns normally exactly
    when the node's [name] is present; without a name each throws, and so
    does the walk.  An absent bounding box or an absent [children] field is
    absorbed instead: the size tests are false, the child count is zero and
    the walk of such a named node returns.  The walk of a document throws as
    soon as one of its nodes has no name. *)
Theorem classification_total_iff_named (node : Node) :
  ((exists b, isAtomicComponent node = Ok b) <-> exists s, name node = Some s) /\
  ((exists b, isScreenOrFrame node = Ok b) <-> exists s, name node = Some s) /\
  ((exists c, determineComponentCategory node = Ok c)
   <-> exists s, name node = Some s) /\
  (name node = None ->
   isAtomicComponent node = Err TypeError /\
   isScreenOrFrame node = Err TypeError /\
   determineComponentCategory node = Err TypeError /\
   forall parentPath acc, walk node parentPath acc = Err TypeError) /\
  (forall s i t d st parentPath acc,
      let bare := mkNode (Some s) i t d None st None in
      jsLt (boxWidth bare) 500%Q = false /\
      jsGe (boxWidth bare) 500%Q = false /\
      childCount bare = 0 /\
      exists acc', walk bare parentPath acc = Ok acc') /\
  (allNamed node = false ->
   forall parentPath acc, walk node parentPath acc = Err TypeError).
Proof.
  split; [|split; [|split; [|split; [|split; [|apply walk_unnamed]]]]].
  - split.
    + intros [b Hb]. destruct (name node) as [s|] eqn:E; [now exists s|].
      unfold isAtomicComponent in Hb. now rewrite (lowerName_unnamed _ E) in Hb.
    + intros [s Hs]. rewrite (isAtomicComponent_named _ _ Hs). eauto.
  - split.
    + intros [b Hb]. destruct (name node) as [s|] eqn:E; [now exists s|].
      unfold isScreenOrFrame in Hb. now rewrite (lowerName_unnamed _ E) in Hb.
    + intros [s Hs]. rewrite (isScreenOrFrame_named _ _ Hs). eauto.
  - split.
    + intros [b Hb]. destruct (name node) as [s|] eqn:E; [now exists s|].
      unfold determineComponentCategory in Hb.
      now rewrite (lowerName_unnamed _ E) in Hb.
    + intros [s Hs]. rewrite (determineComponentCategory_named _ _ Hs). eauto.
  - intros E.
    assert (Ha : isAtomicComponent node = Err TypeError)
      by (unfold isAtomicComponent; now rewrite (lowerName_unnamed _ E)).
    repeat split.
    + exact Ha.
    + unfold isScreenOrFrame. now rewrite (lowerName_unnamed _ E).
    + unfold determineComponentCategory. now rewrite (lowerName_unnamed _ E).
    + intros parentPath acc. destruct node. cbn [walk]. unfold visit.
      now rewrite Ha.
  - intros s i t d st parentPath acc bare. repeat split.
    assert (Hn : name bare = Some s) by reflexivity.
    subst bare. cbn [walk]. unfold visit.
    rewrite (isAtomicComponent_named _ _ Hn), (isScreenOrFrame_named _ _ Hn),
      (determineComponentCategory_named _ _ Hn).
    cbn [Js.bind].
    repeat match goal with
           | |- context [if ?b then _ else _] => destruct b
           end; cbn [Js.bind]; eauto.
Qed.

(** Witness of [classification_total_iff_named] on the node without a name:
    the walk throws. *)
Lemma classification_total_iff_named_witness :
  name anonymous = None /\ walk anonymous [] noneExtracted = Err TypeError.
Proof.
  split; [reflexivity|].
  destruct (classification_total_iff_named anonymous) as (_ & _ & _ & H & _).
  destruct (H eq_refl) as (_ & _ & _ & Hwalk).
  apply Hwalk.
Defined.

(** ** Array callbacks that may throw *)

Lemma some_true (A : Type) (f : A -> result bool) (l : list A) :
  Js.some f l = Ok true -> exists x, In x l /\ f x = Ok true.
Proof.
  induction l as [|x l IH]; simpl; [discriminate|].
  destruct (f x) as [[|]|] eqn:E; try discriminate.
  - intros _. exists x. split; [now left | exact E].
  - intros H. destruct (IH H) as [y [Hy Hfy]]. exists y. split; [now right | exact Hfy].
Qed.

Lemma some_false (A : Type) (f : A -> result bool) (l : list A) :
  Js.some f l = Ok false -> forall x, In x l -> f x = Ok false.
Proof.
  induction l as [|x l IH]; simpl; [intros _ y []|].
  destruct (f x) as [[|]|] eqn:E; try discriminate.
  intros H y [<- | Hy]; [exact E | now apply IH].
Qed.

Lemma filter_Ok (A : Type) (f : A -> result bool) (l r : list A) :
  Js.filter f l = Ok r ->
  r = List.filter (fun x => Js.holds (f x)) l /\
  Forall (fun x => exists b, f x = Ok b) l.
Proof.
  revert r. induction l as [|x l IH]; simpl; intros r H.
  - apply Ok_inj in H. subst r. split; [reflexivity | constructor].
  - destruct (f x) as [b|] eqn:E; [|discriminate].
    destruct (Js.filter f l) as [r'|]; [|discriminate].
    apply Ok_inj in H. destruct (IH r' eq_refl) as [-> Hall].
    split; [|constructor; [now exists b | exact Hall]].
    subst r. now destruct b.
Qed.

Lemma filter_Ok_In (A : Type) (f : A -> result bool) (l r : list A) :
  Js.filter f l = Ok r ->
  forall x, In x r <-> In x l /\ f x = Ok true.
Proof.
  intros H x. destruct (filter_Ok _ _ _ _ H) as [-> _].
  rewrite filter_In. unfold Js.holds.
  destruct (f x) as [[|]|]; split; intros [H1 H2]; (split; [exact H1|]);
    congruence.
Qed.

(** Two filters with complementary tests split a list. *)
Lemma filter_complement_Permutation (A : Type) (g h : A -> bool) (l : list A) :
  Forall (fun x => h x = negb (g x)) l ->
  Permutation (List.filter g l ++ List.filter h l) l.
Proof.
  induction 1 as [|x l Hx _ IH]; simpl; [constructor|].
  rewrite Hx. destruct (g x); simpl.
  - now constructor.
  - apply Permutation_sym. apply Permutation_cons_app. now apply Permutation_sym.
Qed.

(** ** The oracle's lists *)

Lemma inExisting_listed (a : Analysis.t) (c : Component.t) (b : bool) :
  ParseAndCheck.inExisting a c = Ok b ->
  (b = true <-> listedExisting a (Component.name c)).
Proof.
  unfold ParseAndCheck.inExisting, listedExisting.
  destruct (Analysis.existing a) as [es|]; [|discriminate].
  intros H. destruct b.
  - split; [intros _ | reflexivity].
    apply some_true in H. destruct H as [e [He Hf]].
    destruct e as [|[n|] m]; try discriminate.
    apply Ok_inj in Hf. apply String.eqb_eq in Hf. subst n.
    now exists es, m.
  - split; [discriminate|]. intros (es' & m & [= <-] & Hin).
    pose proof (some_false _ _ _ H _ Hin) as Hf. simpl in Hf.
    rewrite String.eqb_refl in Hf. discriminate.
Qed.

Lemma inNew_listed (a : Analysis.t) (c : Component.t) (b : bool) :
  ParseAndCheck.inNew a c = Ok b ->
  (b = true <-> listedNew a (Component.name c)).
Proof.
  unfold ParseAndCheck.inNew, listedNew.
  destruct (Analysis.new a) as [ns|]; [|discriminate].
  intros H. destruct b.
  - split; [intros _ | reflexivity].
    apply some_true in H. destruct H as [[n|] [Hn Hf]]; [|discriminate].
    apply Ok_inj in Hf. apply String.eqb_eq in Hf. subst n.
    now exists ns.
  - split; [discriminate|]. intros (ns' & [= <-] & Hin).
    pose proof (some_false _ _ _ H _ Hin) as Hf. simpl in Hf.
    rewrite String.eqb_refl in Hf. discriminate.
Qed.

(** What the two filters of [separate] keep, when neither throws. *)
Lemma separate_In (a : Analysis.t) (catalogue existing new : list Component.t) :
  ParseAndCheck.separate a catalogue = Ok (existing, new) ->
  Js.filter (ParseAndCheck.inExisting a) catalogue = Ok existing /\
  Js.filter (ParseAndCheck.inNew a) catalogue = Ok new /\
  (forall c, In c existing
             <-> In c catalogue /\ listedExisting a (Component.name c)) /\
  (forall c, In c new <-> In c catalogue /\ listedNew a (Component.name c)).
Proof.
  unfold ParseAndCheck.separate. intros H.
  destruct (Js.filter (ParseAndCheck.inExisting a) catalogue) as [ex|] eqn:Eex;
    [|discriminate].
  destruct (Js.filter (ParseAndCheck.inNew a) catalogue) as [nw|] eqn:Enw;
    [|discriminate].
  cbn [Js.bind] in H. apply Ok_inj in H. injection H as -> ->.
  split; [reflexivity | split; [reflexivity | split]]; intros c.
  - rewrite (filter_Ok_In _ _ _ _ Eex c). split; intros [Hin Hc]; (split; [exact Hin|]).
    + now apply (inExisting_listed a c true Hc).
    + destruct (filter_Ok _ _ _ _ Eex) as [_ Hall]. rewrite Forall_forall in Hall.
      destruct (Hall c Hin) as [b Hb]. rewrite Hb. f_equal.
      now apply (inExisting_listed a c b Hb).
  - rewrite (filter_Ok_In _ _ _ _ Enw c). split; intros [Hin Hc]; (split; [exact Hin|]).
    + now apply (inNew_listed a c true Hc).
    + destruct (filter_Ok _ _ _ _ Enw) as [_ Hall]. rewrite Forall_forall in Hall.
      destruct (Hall c Hin) as [b Hb]. rewrite Hb. f_equal.
      now apply (inNew_listed a c b Hb).
Qed.

Lemma separate_filters (a : Analysis.t) (catalogue existing new : list Component.t) :
  ParseAndCheck.separate a catalogue = Ok (existing, new) ->
  existing
  = List.filter (fun c => Js.holds (ParseAndCheck.inExisting a c)) catalogue /\
  new = List.filter (fun c => Js.holds (ParseAndCheck.inNew a c)) catalogue /\
  Forall (fun c =>
            exists be bn,
              ParseAndCheck.inExisting a c = Ok be /\
              ParseAndCheck.inNew a c = Ok bn /\
              (be = true <-> listedExisting a (Component.name c)) /\
              (bn = true <-> listedNew a (Component.name c))) catalogue.
Proof.
  intros H. destruct (separate_In _ _ _ _ H) as (Hex & Hnw & _).
  destruct (filter_Ok _ _ _ _ Hex) as [-> Hall1].
  destruct (filter_Ok _ _ _ _ Hnw) as [-> Hall2].
  split; [reflexivity | split; [reflexivity|]].
  rewrite Forall_forall in *. intros c Hc.
  destruct (Hall1 c Hc) as [be Hbe]. destruct (Hall2 c Hc) as [bn Hbn].
  exists be, bn. repeat split; try assumption.
  - now apply (inExisting_listed a c be Hbe).
  - now apply (inExisting_listed a c be Hbe).
  - now apply (inNew_listed a c bn Hbn).
  - now apply (inNew_listed a c bn Hbn).
Qed.

(** A catalogue component is in one of the two lists unless the oracle
    names it in neither of its own. *)
Lemma separate_accounts (a : Analysis.t) (catalogue existing new : list Component.t) :
  ParseAndCheck.separate a catalogue = Ok (existing, new) ->
  forall c,
    In c catalogue ->
    In c existing \/ In c new
    \/ (~ listedExisting a (Component.name c) /\ ~ listedNew a (Component.name c)).
Proof.
  intros H c Hc. destruct (separate_filters _ _ _ _ H) as (-> & -> & Hall).
  rewrite Forall_forall in Hall.
  destruct (Hall c Hc) as (be & bn & Hbe & Hbn & Hle & Hln).
  destruct be.
  - left. apply filter_In. split; [exact Hc|]. now rewrite Hbe.
  - destruct bn.
    + right. left. apply filter_In. split; [exact Hc|]. now rewrite Hbn.
    + right. right. split; intros Hl; [apply Hle in Hl | apply Hln in Hl];
        discriminate.
Qed.

(** ** The registry-matching step *)

(** C1, as the code has it.  When the two filters run without throwing, the
    existing list is the catalogue, in order, restricted to the components
    whose name is an [originalName] of the oracle's [existing], and the new
    list the catalogue restricted to those whose name is in the oracle's
    [new]: a component named in neither list is in neither result, one named
    in both is in both.  When every catalogue name is in exactly one of the
    oracle's lists, the two results together are a permutation of the
    catalogue, their lengths add up to its length, and they share no
    component. *)
Theorem separate_partition (a : Analysis.t)
  (catalogue existing new : list Component.t) :
  ParseAndCheck.separate a catalogue = Ok (existing, new) ->
  existing
  = List.filter (fun c => Js.holds (ParseAndCheck.inExisting a c)) catalogue /\
  new = List.filter (fun c => Js.holds (ParseAndCheck.inNew a c)) catalogue /\
  (forall c, In c existing
             <-> In c catalogue /\ listedExisting a (Component.name c)) /\
  (forall c, In c new <-> In c catalogue /\ listedNew a (Component.name c)) /\
  ((forall c, In c catalogue ->
              (listedExisting a (Component.name c)
               <-> ~ listedNew a (Component.name c))) ->
   Permutation (existing ++ new) catalogue /\
   List.length existing + List.length new = List.length catalogue /\
   forall c, In c existing -> In c new -> False).
Proof.
  intros H.
  destruct (separate_In _ _ _ _ H) as (_ & _ & HinE & HinN).
  destruct (separate_filters _ _ _ _ H) as (Hex & Hnw & Hall).
  split; [exact Hex | split; [exact Hnw | split; [exact HinE | split;
    [exact HinN|]]]].
  intros Hone.
  assert (Hperm : Permutation (existing ++ new) catalogue).
  { rewrite Hex, Hnw. apply filter_complement_Permutation.
    rewrite Forall_forall in *. intros c Hc.
    destruct (Hall c Hc) as (be & bn & -> & -> & Hle & Hln). simpl.
    specialize (Hone c Hc).
    destruct be, bn; simpl; try reflexivity; exfalso.
    - apply (proj1 Hone); [now apply Hle | now apply Hln].
    - assert (false = true) by (apply Hle, Hone; intros Hl; apply Hln in Hl;
                                discriminate).
      discriminate. }
  split; [exact Hperm | split].
  - rewrite <- (Permutation_length Hperm). now rewrite length_app.
  - intros c Hce Hcn. apply HinE in Hce. apply HinN in Hcn.
    destruct Hce as [Hc Hle]. destruct Hcn as [_ Hln].
    now apply (proj1 (Hone c Hc)).
Qed.

(** Witness of [separate_partition]: an oracle output that lists each of the
    two names once splits the catalogue in two. *)
Lemma separate_partition_witness :
  ParseAndCheck.separate listsEachOnce [buttonRecord; avatarRecord]
  = Ok ([buttonRecord], [avatarRecord]) /\
  Permutation ([buttonRecord] ++ [avatarRecord]) [buttonRecord; avatarRecord].
Proof.
  split; [reflexivity|].
  destruct (separate_partition listsEachOnce [buttonRecord; avatarRecord]
              [buttonRecord] [avatarRecord] eq_refl) as (_ & _ & _ & _ & Hpart).
  apply Hpart. intros c [<- | [<- | []]]; simpl; split.
  - intros _ (ns & [= <-] & [E | []]). discriminate.
  - intros _. eexists _, _. split; [reflexivity | now left].
  - intros (es & m & [= <-] & [E | []]). discriminate.
  - intros Hn. exfalso. apply Hn. eexists. split; [reflexivity | now left].
Defined.

(** C1, as the specification states it, fails: with an oracle output that
    names the avatar in neither list, the avatar is in neither result (it is
    not counted as new); with one that names the button in both lists, the
    button is in both results. *)
Lemma separate_not_a_partition :
  ParseAndCheck.separate omitsAvatar [buttonRecord; avatarRecord]
  = Ok ([buttonRecord], []) /\
  In avatarRecord [buttonRecord; avatarRecord] /\
  ~ In avatarRecord ([buttonRecord] ++ []) /\
  ~ listedExisting omitsAvatar "UserAvatar" /\
  ~ listedNew omitsAvatar "UserAvatar" /\
  ParseAndCheck.separate listsButtonTwice [buttonRecord; avatarRecord]
  = Ok ([buttonRecord], [buttonRecord; avatarRecord]) /\
  listedExisting listsButtonTwice "PrimaryButton" /\
  listedNew listsButtonTwice "PrimaryButton".
Proof.
  split; [reflexivity|].
  split; [right; now left|].
  split; [intros [E | []]; discriminate|].
  split; [intros (es & m & [= <-] & [E | []]); discriminate|].
  split; [intros (ns & [= <-] & [])|].
  split; [reflexivity|].
  split.
  - eexists _, _. split; [reflexivity | now left].
  - eexists. split; [reflexivity | now left].
Qed.

(** ** /api/check-component: the two substring tests *)

Lemma isNew_iff (registryContent : string) (c : Component.t) :
  CheckComponent.isNew registryContent c = false
  <-> occursIn (toLowerCase (Component.name c)) (toLowerCase registryContent).
Proof.
  unfold CheckComponent.isNew. rewrite negb_false_iff. apply includes_iff.
Qed.

(** C7, where the code departs from it.  The bulk filter keeps a component
    out of the new ones exactly when its lower-cased name occurs in the
    lower-cased registry text.  The single-component check compares the
    texts as they are: for the name Button and a registry that spells it
    button, the check answers that the component is not in the registry,
    while the bulk filter of the same request does not count it as new. *)
Theorem componentExists_case_sensitive :
  (forall registryContent c,
      CheckComponent.isNew registryContent c = false
      <-> occursIn (toLowerCase (Component.name c)) (toLowerCase registryContent)) /\
  (forall registryContent componentName,
      CheckComponent.componentExists registryContent componentName = true
      <-> occursIn componentName registryContent) /\
  CheckComponent.componentExists "export { button }" "Button" = false /\
  occursIn (toLowerCase "Button") (toLowerCase "export { button }") /\
  CheckComponent.handler
    {| figmaFile := fun _ => Ok homeFile;
       figmaNode := fun _ _ => Ok homeScreen;
       gitlabTree :=
         Ok [RepoFile.mk "packages/src/customer/vdlComponents/registry.ts" "blob"];
       gitlabTreePages := [];
       gitlabRaw := fun _ => Ok "export { button }";
       openaiCompare := fun _ _ => Ok NotJson |}
    {| CheckComponent.componentName := "Button";
       CheckComponent.figmaComponents :=
         [componentRecord
            (mkNode (Some "Button") "4:1" "COMPONENT" None None noStyles None)
            [] BUTTON] |}
  = CheckComponent.Checked false "Component not found in registry"
      "packages/src/customer/vdlComponents/registry.ts" [].
Proof.
  split; [exact isNew_iff|].
  split; [intros r n; apply includes_iff|].
  split; [reflexivity|].
  split; [|reflexivity].
  now exists "export { ", " }".
Qed.

(** ** /api/parse-and-check: the report *)

(** The two ways the registry check can end with a report. *)
Lemma checkRegistry_Ok (svc : Services) (found : Extracted) (info : FileInfo)
  (r : ParseAndCheck.Report) :
  ParseAndCheck.checkRegistry svc found info = Ok r ->
  ParseAndCheck.success r = true /\
  ParseAndCheck.reportScreens r = screens found /\
  ParseAndCheck.gitlabError r = None /\
  ((ParseAndCheck.message r = "Registry file not found in repository" /\
    ParseAndCheck.components r
    = ParseAndCheck.Components.mk [] (atomicComponents found) None)
   \/ (exists a existing new,
          ParseAndCheck.separate a (atomicComponents found) = Ok (existing, new) /\
          ParseAndCheck.components r
          = ParseAndCheck.Components.mk existing new (Some a))).
Proof.
  unfold ParseAndCheck.checkRegistry.
  destruct (ParseAndCheck.fetchTree _ _) as [allFiles|]; [|discriminate].
  cbn [Js.bind].
  destruct (ParseAndCheck.findRegistry _ allFiles) as [registryFile|].
  - destruct (gitlabRaw svc _) as [registryContent|]; [|discriminate].
    cbn [Js.bind].
    destruct (openaiCompare svc _ _) as [content|]; [|discriminate].
    cbn [Js.bind].
    destruct (JSON_parse content) as [a|]; [|discriminate].
    cbn [Js.bind].
    destruct (ParseAndCheck.separate a _) as [[existing new]|] eqn:E;
      [|discriminate].
    cbn [Js.bind fst snd]. intros H. apply Ok_inj in H. subst r.
    repeat split. right. now exists a, existing, new.
  - intros H. apply Ok_inj in H. subst r. repeat split. now left.
Qed.

(** Without the registry content the registry check either throws or
    reports that the registry file was not found. *)
Lemma checkRegistry_unavailable (svc : Services) (found : Extracted)
  (info : FileInfo) :
  registryUnavailable svc ->
  (exists e, ParseAndCheck.checkRegistry svc found info = Err e)
  \/ (exists r,
         ParseAndCheck.checkRegistry svc found info = Ok r /\
         ParseAndCheck.message r = "Registry file not found in repository" /\
         ParseAndCheck.components r
         = ParseAndCheck.Components.mk [] (atomicComponents found) None).
Proof.
  unfold ParseAndCheck.checkRegistry.
  intros [[e He] | [(allFiles & Hf & Hnone) | (allFiles & file & e & Hf & Hsome & Hraw)]].
  - left. exists e. now rewrite He.
  - right. rewrite Hf. cbn [Js.bind]. rewrite Hnone. eexists. now repeat split.
  - left. exists e. rewrite Hf. cbn [Js.bind]. rewrite Hsome, Hraw. reflexivity.
Qed.

(** C6. When the document has been fetched and walked and the registry
    content cannot be obtained, the handler answers with a report whose
    existing list is empty, whose new list is the whole catalogue, without an
    oracle analysis, and whose message says that the registry file was not
    found or that GitLab could not be reached (then with the error
    attached). *)
Theorem registry_unavailable_all_new (svc : Services)
  (req : ParseAndCheck.Request) (fetched : FigmaFile * Node) (found : Extracted) :
  ParseAndCheck.fetchDocument svc req = Ok fetched ->
  extractAllNestedComponents (snd fetched) = Ok found ->
  registryUnavailable svc ->
  exists report,
    ParseAndCheck.handler svc req = ParseAndCheck.Answered report /\
    ParseAndCheck.success report = true /\
    ParseAndCheck.Components.existing (ParseAndCheck.components report) = [] /\
    ParseAndCheck.Components.new (ParseAndCheck.components report)
    = atomicComponents found /\
    ParseAndCheck.Components.analysis (ParseAndCheck.components report) = None /\
    ParseAndCheck.reportScreens report = screens found /\
    flaggedUnchecked report.
Proof.
  intros Hdoc Hwalk Hreg.
  unfold ParseAndCheck.handler, ParseAndCheck.run.
  rewrite Hdoc. cbn [Js.bind]. rewrite Hwalk. cbn [Js.bind].
  destruct (checkRegistry_unavailable svc found (fileInfoOf (fst fetched)) Hreg)
    as [[e He] | (r & Hr & Hmsg & Hcomp)].
  - rewrite He. eexists. split; [reflexivity|].
    repeat split. right. split; [reflexivity | now exists e].
  - rewrite Hr. exists r. split; [reflexivity|].
    destruct (checkRegistry_Ok _ _ _ _ Hr) as (Hs & Hscr & _ & _).
    rewrite Hcomp. repeat split; try assumption. now left.
Qed.

(** Witness of [registry_unavailable_all_new]: GitLab does not answer. *)
Lemma registry_unavailable_all_new_witness :
  registryUnavailable servicesWithoutGitlab /\
  exists report,
    ParseAndCheck.handler servicesWithoutGitlab wholeFile
    = ParseAndCheck.Answered report /\
    ParseAndCheck.Components.existing (ParseAndCheck.components report) = [] /\
    ParseAndCheck.Components.new (ParseAndCheck.components report)
    = [ componentRecord primaryButton ["HomeScreen"] BUTTON;
        componentRecord userAvatar ["HomeScreen"] AVATAR ].
Proof.
  assert (Hreg : registryUnavailable servicesWithoutGitlab)
    by (left; eexists; reflexivity).
  split; [exact Hreg|].
  destruct (registry_unavailable_all_new servicesWithoutGitlab wholeFile
              (homeFile, homeScreen)
              {| atomicComponents :=
                   [ componentRecord primaryButton ["HomeScreen"] BUTTON;
                     componentRecord userAvatar ["HomeScreen"] AVATAR ];
                 screens := [screenRecord homeScreen] |}
              eq_refl eq_refl Hreg)
    as (report & Hrep & _ & Hex & Hnew & _).
  exists report. now repeat split.
Defined.



(** * Further properties *)

(** ** Lower-casing and containment *)

Lemma toLowerCase_app (a b : string) :
  toLowerCase (a ++ b)%string = (toLowerCase a ++ toLowerCase b)%string.
Proof.
  induction a as [|c a IH]; [reflexivity|]. simpl. now rewrite IH.
Qed.

Lemma string_app_assoc (a b c : string) :
  ((a ++ b) ++ c)%string = (a ++ b ++ c)%string.
Proof.
  induction a as [|x a IH]; [reflexivity|]. simpl. now rewrite IH.
Qed.

Lemma occursIn_lower (p s : string) :
  occursIn p s -> occursIn (toLowerCase p) (toLowerCase s).
Proof.
  intros [a [b ->]]. exists (toLowerCase a), (toLowerCase b).
  now rewrite !toLowerCase_app.
Qed.

Lemma occursIn_trans (p q s : string) :
  occursIn p q -> occursIn q s -> occursIn p s.
Proof.
  intros [a [b ->]] [a' [b' ->]]. exists (a' ++ a)%string, (b ++ b')%string.
  now rewrite !string_app_assoc.
Qed.

Lemma occursIn_empty (s : string) : occursIn "" s.
Proof. now exists "", s. Qed.

(** ** /api/check-component: how the two tests relate *)

(** X1. On ASCII text, a component name that the single check finds in
    the registry is never among the new components: whenever
    [registryContent] contains [componentName] as it is written, the bulk
    filter drops every component of that name. *)
Theorem componentExists_not_new (registryContent : string) (c : Component.t) :
  asciiText registryContent = true ->
  asciiText (Component.name c) = true ->
  CheckComponent.componentExists registryContent (Component.name c) = true ->
  CheckComponent.isNew registryContent c = false /\
  forall figmaComponents,
    ~ In c (List.filter (CheckComponent.isNew registryContent) figmaComponents).
Proof.
  intros _ _ H. apply includes_iff in H.
  assert (Hnew : CheckComponent.isNew registryContent c = false)
    by (apply isNew_iff; now apply occursIn_lower).
  split; [exact Hnew|].
  intros l Hin. apply filter_In in Hin. destruct Hin as [_ Hin]. congruence.
Qed.

(** Witness of [componentExists_not_new]: the button and a registry that
    exports it. *)
Lemma componentExists_not_new_witness :
  asciiText "export { PrimaryButton }" = true /\
  asciiText (Component.name buttonRecord) = true /\
  CheckComponent.componentExists "export { PrimaryButton }"
    (Component.name buttonRecord) = true /\
  CheckComponent.isNew "export { PrimaryButton }" buttonRecord = false.
Proof.
  split; [reflexivity | split; [reflexivity | split; [reflexivity|]]].
  apply (componentExists_not_new "export { PrimaryButton }" buttonRecord);
    reflexivity.
Defined.

(** X3. On ASCII text, text added around the registry content never
    makes a component new: the new components against a longer registry are
    among the new components against the shorter one. *)
Theorem isNew_antitone (before registryContent after : string)
  (figmaComponents : list Component.t) (c : Component.t) :
  asciiText (before ++ registryContent ++ after)%string = true ->
  asciiText (Component.name c) = true ->
  In c (List.filter
          (CheckComponent.isNew (before ++ registryContent ++ after)%string)
          figmaComponents) ->
  In c (List.filter (CheckComponent.isNew registryContent) figmaComponents).
Proof.
  intros _ _. rewrite !filter_In. intros [Hin Hnew]. split; [exact Hin|].
  destruct (CheckComponent.isNew registryContent c) eqn:E; [reflexivity|].
  apply isNew_iff in E.
  assert (Hocc : occursIn (toLowerCase (Component.name c))
                   (toLowerCase (before ++ registryContent ++ after)%string)).
  { apply (occursIn_trans _ _ _ E). rewrite !toLowerCase_app.
    now exists (toLowerCase before), (toLowerCase after). }
  apply isNew_iff in Hocc. congruence.
Qed.

(** Witness of [isNew_antitone]: the avatar is new against both texts. *)
Lemma isNew_antitone_witness :
  asciiText ("// registry" ++ "export { PrimaryButton }" ++ "// end")%string
  = true /\
  asciiText (Component.name avatarRecord) = true /\
  In avatarRecord
     (List.filter (CheckComponent.isNew "export { PrimaryButton }")
        [buttonRecord; avatarRecord]).
Proof.
  split; [reflexivity | split; [reflexivity|]].
  apply (isNew_antitone "// registry" "export { PrimaryButton }" "// end"
           [buttonRecord; avatarRecord] avatarRecord);
    [reflexivity | reflexivity |].
  apply filter_In. split; [right; now left | reflexivity].
Defined.

(** X4. An empty name matches every registry: the single check answers
    that an empty [componentName] exists, and a component whose name is
    empty is never new, whatever the registry content. *)
Theorem empty_name_always_found (registryContent : string) :
  CheckComponent.componentExists registryContent "" = true /\
  forall c,
    Component.name c = "" -> CheckComponent.isNew registryContent c = false.
Proof.
  split.
  - apply includes_iff. apply occursIn_empty.
  - intros c Hc. apply isNew_iff. rewrite Hc. apply occursIn_empty.
Qed.

(** ** /api/parse-and-check: listing the repository and finding the registry *)

Lemma fetchTree_pages (pages : list (list RepoFile.t))
  (rest : list (result (list RepoFile.t))) (allFiles : list RepoFile.t) :
  Forall (fun data => data <> []) pages ->
  ParseAndCheck.fetchTree (map Ok pages ++ rest) allFiles
  = ParseAndCheck.fetchTree rest (allFiles ++ List.concat pages).
Proof.
  intros H. revert allFiles.
  induction H as [|data pages Hdata _ IH]; intros allFiles.
  - simpl. now rewrite app_nil_r.
  - simpl. destruct data as [|file data]; [now destruct Hdata|].
    rewrite IH. now rewrite <- app_assoc.
Qed.

(** X5. The paginated listing collects the pages in order up to the first
    empty page and ignores whatever follows it; without an empty page it
    collects all pages; a page that is rejected before any empty page makes
    the listing fail, and the files collected so far are lost. *)
Theorem fetchTree_until_empty_page (pages : list (list RepoFile.t))
  (rest : list (result (list RepoFile.t))) (allFiles : list RepoFile.t) :
  Forall (fun data => data <> []) pages ->
  ParseAndCheck.fetchTree (map Ok pages ++ Ok [] :: rest) allFiles
  = Ok (allFiles ++ List.concat pages) /\
  ParseAndCheck.fetchTree (map Ok pages) allFiles = Ok (allFiles ++ List.concat pages) /\
  forall e,
    ParseAndCheck.fetchTree (map Ok pages ++ Err e :: rest) allFiles = Err e.
Proof.
  intros H. split; [|split].
  - now rewrite (fetchTree_pages pages _ allFiles H).
  - rewrite <- (app_nil_r (map Ok pages)).
    now rewrite (fetchTree_pages pages _ allFiles H).
  - intros e. now rewrite (fetchTree_pages pages _ allFiles H).
Qed.

(** Witness of [fetchTree_until_empty_page]: one page, then an empty one,
    then a page that is never requested. *)
Lemma fetchTree_until_empty_page_witness :
  Forall (fun data : list RepoFile.t => data <> []) [[registryFileEntry]] /\
  ParseAndCheck.fetchTree
    [Ok [registryFileEntry]; Ok []; Err (RequestError (Some 500) "unused")] []
  = Ok [registryFileEntry].
Proof.
  assert (H : Forall (fun data : list RepoFile.t => data <> [])
                [[registryFileEntry]])
    by (constructor; [discriminate | constructor]).
  split; [exact H|].
  exact (proj1 (fetchTree_until_empty_page [[registryFileEntry]]
                  [Err (RequestError (Some 500) "unused")] [] H)).
Defined.

Lemma find_path_Some (p : string) (files : list RepoFile.t) (f : RepoFile.t) :
  find (fun file => String.eqb (RepoFile.path file) p) files = Some f ->
  In f files /\ RepoFile.path f = p.
Proof.
  intros H. apply find_some in H. destruct H as [Hin Hp].
  split; [exact Hin | now apply String.eqb_eq].
Qed.

Lemma find_path_None (p : string) (files : list RepoFile.t) :
  find (fun file => String.eqb (RepoFile.path file) p) files = None ->
  forall g, In g files -> RepoFile.path g <> p.
Proof.
  intros H g Hg Hp. pose proof (find_none _ _ H g Hg) as Hf. simpl in Hf.
  apply String.eqb_neq in Hf. contradiction.
Qed.

(** X6. The registry lookup returns a file of the listing whose path is
    the first of the candidate paths that the listing contains: no file of
    the listing has a candidate path that comes earlier.  It returns nothing
    exactly when no file of the listing has a candidate path. *)
Theorem findRegistry_first_candidate (paths : list string)
  (allFiles : list RepoFile.t) :
  match ParseAndCheck.findRegistry paths allFiles with
  | Some registryFile =>
      In registryFile allFiles /\
      exists earlier later,
        paths = earlier ++ RepoFile.path registryFile :: later /\
        forall p g, In p earlier -> In g allFiles -> RepoFile.path g <> p
  | None => forall g, In g allFiles -> ~ In (RepoFile.path g) paths
  end.
Proof.
  induction paths as [|p paths IH]; simpl.
  - intros g _ [].
  - destruct (find _ allFiles) as [f|] eqn:E.
    + destruct (find_path_Some _ _ _ E) as [Hin Hp]. split; [exact Hin|].
      exists [], paths. split; [now rewrite Hp | intros q g []].
    + pose proof (find_path_None _ _ E) as Hnone.
      destruct (ParseAndCheck.findRegistry paths allFiles) as [f|].
      * destruct IH as [Hin (earlier & later & -> & Hearlier)].
        split; [exact Hin|]. exists (p :: earlier), later.
        split; [reflexivity|].
        intros q g [<- | Hq] Hg; [now apply Hnone | now apply Hearlier].
      * intros g Hg [Hq | Hq];
          [exact (Hnone g Hg (eq_sym Hq)) | exact (IH g Hg Hq)].
Qed.

(** X7. The check-component and test-gitlab endpoints look for the
    registry at one path only, which is one of the four candidates of
    parse-and-check: when they find it in a listing, parse-and-check finds a
    registry in the same listing, that file or one at the candidate path
    that comes first.  The converse fails for a registry at another
    candidate path. *)
Theorem single_path_lookup_weaker :
  CheckComponent.registryPath = TestGitlab.registryPath /\
  (forall files f,
      find (fun file => String.eqb (RepoFile.path file) CheckComponent.registryPath)
           files = Some f ->
      exists g,
        ParseAndCheck.findRegistry ParseAndCheck.possibleRegistryPaths files
        = Some g /\
        (g = f \/ RepoFile.path g = "packages/customer/src/registry.ts")) /\
  (exists files g,
      ParseAndCheck.findRegistry ParseAndCheck.possibleRegistryPaths files
      = Some g /\
      find (fun file => String.eqb (RepoFile.path file) CheckComponent.registryPath)
           files = None).
Proof.
  split; [reflexivity | split].
  - intros files f H. unfold ParseAndCheck.possibleRegistryPaths.
    cbn [ParseAndCheck.findRegistry].
    destruct (find (fun file => String.eqb (RepoFile.path file)
                                  "packages/customer/src/registry.ts") files)
      as [g|] eqn:E.
    + exists g. split; [reflexivity|]. right.
      now destruct (find_path_Some _ _ _ E).
    + unfold CheckComponent.registryPath in H. rewrite H.
      exists f. split; [reflexivity | now left].
  - exists [registryFileEntry], registryFileEntry. split; reflexivity.
Qed.

(** ** /api/parse-and-check: when the oracle fails *)

(** X8. Once the registry file has been found and fetched, a rejected
    oracle call or an oracle message that is not JSON does not fail the
    request: the handler answers with the report of the GitLab failure path,
    all components new, the message blaming GitLab access, and the oracle's
    error attached as [gitlabError]. *)
Theorem oracle_failure_reported_as_gitlab (svc : Services)
  (req : ParseAndCheck.Request) (fetched : FigmaFile * Node) (found : Extracted)
  (allFiles : list RepoFile.t) (registryFile : RepoFile.t)
  (registryContent : string) (e : exn) :
  ParseAndCheck.fetchDocument svc req = Ok fetched ->
  extractAllNestedComponents (snd fetched) = Ok found ->
  ParseAndCheck.fetchTree (gitlabTreePages svc) [] = Ok allFiles ->
  ParseAndCheck.findRegistry ParseAndCheck.possibleRegistryPaths allFiles
  = Some registryFile ->
  gitlabRaw svc (RepoFile.path registryFile) = Ok registryContent ->
  openaiCompare svc registryContent (map Component.name (atomicComponents found))
  = Err e
  \/ (openaiCompare svc registryContent
        (map Component.name (atomicComponents found)) = Ok NotJson
      /\ e = SyntaxError) ->
  ParseAndCheck.handler svc req
  = ParseAndCheck.Answered
      {| ParseAndCheck.success := true;
         ParseAndCheck.message :=
           "GitLab API access failed, returning all components as new";
         ParseAndCheck.availablePaths := None;
         ParseAndCheck.components :=
           ParseAndCheck.Components.mk [] (atomicComponents found) None;
         ParseAndCheck.reportScreens := screens found;
         ParseAndCheck.fileInfo := fileInfoOf (fst fetched);
         ParseAndCheck.gitlabError := Some e |}.
Proof.
  intros Hdoc Hwalk Htree Hfind Hraw Horacle.
  unfold ParseAndCheck.handler, ParseAndCheck.run, ParseAndCheck.checkRegistry.
  rewrite Hdoc. cbn [Js.bind]. rewrite Hwalk. cbn [Js.bind].
  rewrite Htree. cbn [Js.bind]. rewrite Hfind, Hraw. cbn [Js.bind].
  destruct Horacle as [-> | [-> ->]]; reflexivity.
Qed.

(** Witness of [oracle_failure_reported_as_gitlab]: the oracle call is
    rejected with status 429. *)
Lemma oracle_failure_reported_as_gitlab_witness :
  exists report,
    ParseAndCheck.handler servicesWithoutOracle wholeFile
    = ParseAndCheck.Answered report /\
    ParseAndCheck.gitlabError report = Some (RequestError (Some 429) "Rate limit") /\
    ParseAndCheck.Components.new (ParseAndCheck.components report)
    = [buttonRecord; avatarRecord].
Proof.
  eexists. split.
  - apply (oracle_failure_reported_as_gitlab servicesWithoutOracle wholeFile
             (homeFile, homeScreen)
             {| atomicComponents := [buttonRecord; avatarRecord];
                screens := [screenRecord homeScreen] |}
             [registryFileEntry] registryFileEntry "export { PrimaryButton }"
             (RequestError (Some 429) "Rate limit"));
      try reflexivity.
    left. reflexivity.
  - split; reflexivity.
Defined.

Lemma some_never_throws (A : Type) (f : A -> result bool) (l : list A) :
  (forall x, In x l -> exists b, f x = Ok b) -> exists b, Js.some f l = Ok b.
Proof.
  induction l as [|x l IH]; intros H; simpl; [now exists false|].
  destruct (H x (or_introl eq_refl)) as [[|] ->]; [now exists true|].
  apply IH. intros y Hy. apply H. now right.
Qed.

Lemma filter_never_throws (A : Type) (f : A -> result bool) (l : list A) :
  (forall x, In x l -> exists b, f x = Ok b) -> exists r, Js.filter f l = Ok r.
Proof.
  induction l as [|x l IH]; intros H; simpl; [now exists []|].
  destruct (H x (or_introl eq_refl)) as [b ->].
  destruct IH as [r ->]; [intros y Hy; apply H; now right|].
  eexists. reflexivity.
Qed.

(** X9. The two filters throw only on an oracle output of the wrong shape,
    and only when there is a component to test.  On an empty catalogue they
    return two empty lists whatever the oracle answered; when both lists are
    arrays and [existing] holds no null, they return for every catalogue;
    with a non-empty catalogue they throw when [existing] is not an array,
    and when [existing] is a well-formed array and [new] is not an array. *)
Theorem separate_throws_on_malformed :
  (forall a, ParseAndCheck.separate a [] = Ok ([], [])) /\
  (forall a es ns catalogue,
      Analysis.existing a = Some es -> Analysis.new a = Some ns ->
      ~ In NullEntry es ->
      exists existing new,
        ParseAndCheck.separate a catalogue = Ok (existing, new)) /\
  (forall a c catalogue,
      Analysis.existing a = None ->
      ParseAndCheck.separate a (c :: catalogue) = Err TypeError) /\
  (forall a es c catalogue,
      Analysis.existing a = Some es -> ~ In NullEntry es ->
      Analysis.new a = None ->
      ParseAndCheck.separate a (c :: catalogue) = Err TypeError).
Proof.
  assert (Hex : forall a es catalogue,
             Analysis.existing a = Some es -> ~ In NullEntry es ->
             exists r, Js.filter (ParseAndCheck.inExisting a) catalogue = Ok r).
  { intros a es catalogue He Hnull. apply filter_never_throws. intros c _.
    unfold ParseAndCheck.inExisting. rewrite He. apply some_never_throws.
    intros [|[n|] m] Hin; [contradiction | eauto | eauto]. }
  split; [reflexivity | split; [|split]].
  - intros a es ns catalogue He Hn Hnull. unfold ParseAndCheck.separate.
    destruct (Hex a es catalogue He Hnull) as [ex ->]. cbn [Js.bind].
    destruct (filter_never_throws _ (ParseAndCheck.inNew a) catalogue) as [nw ->].
    + intros c _. unfold ParseAndCheck.inNew. rewrite Hn.
      apply some_never_throws. intros [n|] _; eauto.
    + now exists ex, nw.
  - intros a c catalogue He. unfold ParseAndCheck.separate. simpl.
    unfold ParseAndCheck.inExisting. now rewrite He.
  - intros a es c catalogue He Hnull Hn. unfold ParseAndCheck.separate.
    destruct (Hex a es (c :: catalogue) He Hnull) as [ex ->]. cbn [Js.bind].
    simpl. unfold ParseAndCheck.inNew. now rewrite Hn.
Qed.

(** ** The tree walk: what it appends and what it records *)

Lemma walk_Ok_allNamed (n : Node) (p : list string) (acc acc' : Extracted) :
  walk n p acc = Ok acc' -> allNamed n = true.
Proof.
  intros H. destruct (allNamed n) eqn:E; [reflexivity|].
  rewrite (walk_unnamed n E) in H. discriminate.
Qed.

(** X10. The walk only appends: when it returns, the two arrays are the
    ones it was given followed by what the same walk collects from empty
    arrays.  When it throws, the exception is a [TypeError] and the walk of
    that node throws under every path and from every pair of arrays. *)
Theorem walk_only_appends (n : Node) (p : list string) (acc : Extracted) :
  match walk n p acc with
  | Ok acc' =>
      exists r,
        walk n p noneExtracted = Ok r /\
        atomicComponents acc' = atomicComponents acc ++ atomicComponents r /\
        screens acc' = screens acc ++ screens r
  | Err e =>
      e = TypeError /\ forall p' acc2, walk n p' acc2 = Err TypeError
  end.
Proof.
  destruct (allNamed n) eqn:E.
  - rewrite (walk_descriptors n E p acc).
    eexists. split; [apply (walk_descriptors n E)|]. split; reflexivity.
  - rewrite (walk_unnamed n E). split; [reflexivity|].
    intros p' acc2. apply (walk_unnamed n E).
Qed.

Lemma descriptors_length (n : Node) (p : list string) :
  List.length (descriptors p n) = size n.
Proof.
  rewrite <- preorder_length, <- (descriptors_preorder n p).
  now rewrite length_map.
Qed.

Lemma own_at_most_one (m : Node) (q : list string) :
  List.length (ownComponent m q) + List.length (ownScreen m) <= 1.
Proof.
  unfold ownComponent, ownScreen.
  destruct (isAtomicComponent m) as [[|]|]; simpl.
  - destruct (determineComponentCategory m); simpl; lia.
  - destruct (isScreenOrFrame m) as [[|]|]; simpl; lia.
  - lia.
Qed.

Lemma flat_map_pair_length (A B C : Type) (f : A -> list B) (g : A -> list C)
  (l : list A) :
  (forall x, List.length (f x) + List.length (g x) <= 1) ->
  List.length (flat_map f l) + List.length (flat_map g l) <= List.length l.
Proof.
  intros H. induction l as [|x l IH]; simpl; [lia|].
  rewrite !length_app. specialize (H x). lia.
Qed.

(** X11. A document yields at most one record per node: the catalogue and
    the screen list together are never longer than the number of nodes. *)
Theorem records_bounded_by_size (document : Node) (found : Extracted) :
  extractAllNestedComponents document = Ok found ->
  List.length (atomicComponents found) + List.length (screens found)
  <= size document.
Proof.
  unfold extractAllNestedComponents. intros H.
  pose proof (walk_Ok_allNamed _ _ _ _ H) as Hnamed.
  rewrite (walk_descriptors document Hnamed) in H. apply Ok_inj in H.
  subst found. cbn [atomicComponents screens noneExtracted app].
  rewrite <- (descriptors_length document []).
  apply flat_map_pair_length. intros [q m]. apply own_at_most_one.
Qed.

(** Witness of [records_bounded_by_size] on the sample home screen. *)
Lemma records_bounded_by_size_witness :
  extractAllNestedComponents homeScreen
  = Ok {| atomicComponents := [buttonRecord; avatarRecord];
          screens := [screenRecord homeScreen] |} /\
  2 + 1 <= size homeScreen.
Proof.
  split; [reflexivity|].
  exact (records_bounded_by_size homeScreen
           {| atomicComponents := [buttonRecord; avatarRecord];
              screens := [screenRecord homeScreen] |} eq_refl).
Defined.

(** X12. What the records of a returned extraction look like.  A
    catalogue record has type COMPONENT or INSTANCE, a path that ends with
    its own name, the category that the category table gives its name, and
    either an atomic pattern in its lower-cased name or a width and a height
    both below 500.  A screen record has the type SCREEN and either a screen
    keyword in its lower-cased name, or a width or a height of at least
    500. *)
Theorem extracted_record_invariants (document : Node) (found : Extracted) :
  extractAllNestedComponents document = Ok found ->
  (forall c,
      In c (atomicComponents found) ->
      (Component.type c = "COMPONENT" \/ Component.type c = "INSTANCE") /\
      (exists parentPath, Component.path c = parentPath ++ [Component.name c]) /\
      Component.category c
      = firstMatch categoryRules (toLowerCase (Component.name c)) /\
      ((exists p, In p atomicPatterns
                  /\ occursIn p (toLowerCase (Component.name c)))
       \/ (exists w h,
              Component.width c = Some w /\ Component.height c = Some h /\
              (w < 500)%Q /\ (h < 500)%Q))) /\
  (forall s,
      In s (screens found) ->
      Screen.type s = "SCREEN" /\
      ((exists p, In p screenPatterns /\ occursIn p (toLowerCase (Screen.name s)))
       \/ (exists w, Screen.width s = Some w /\ (500 <= w)%Q)
       \/ (exists h, Screen.height s = Some h /\ (500 <= h)%Q))).
Proof.
  unfold extractAllNestedComponents. intros H.
  pose proof (walk_Ok_allNamed _ _ _ _ H) as Hnamed.
  rewrite (walk_descriptors document Hnamed) in H. apply Ok_inj in H.
  subst found. cbn [atomicComponents screens noneExtracted app].
  split.
  - intros c Hc. apply in_flat_map in Hc. destruct Hc as [[q m] [_ Hc]].
    cbn [fst snd] in Hc. apply in_ownComponent in Hc.
    destruct Hc as (cat & Ha & Hcat & ->).
    destruct (isAtomicComponent_Ok_named _ _ Ha) as [s Hs].
    rewrite (isAtomicComponent_named _ _ Hs) in Ha. apply Ok_inj in Ha.
    rewrite (determineComponentCategory_named _ _ Hs) in Hcat.
    apply Ok_inj in Hcat. subst cat.
    assert (Hn : nameStr m = s) by (unfold nameStr; now rewrite Hs).
    cbn [componentRecord Component.type Component.path Component.name
         Component.category Component.width Component.height].
    rewrite Hn. apply andb_true_iff in Ha. destruct Ha as [Hty Hcond].
    split; [|split; [now exists q | split; [reflexivity|]]].
    + apply orb_true_iff in Hty. rewrite !String.eqb_eq in Hty. exact Hty.
    + apply orb_true_iff in Hcond. destruct Hcond as [Hp | Hsmall].
      * left. now apply existsb_includes_iff.
      * right. apply andb_true_iff in Hsmall. destruct Hsmall as [Hw Hh].
        apply jsLt_iff in Hw. apply jsLt_iff in Hh.
        destruct Hw as [w [Hw Hwlt]]. destruct Hh as [h [Hh Hhlt]].
        now exists w, h.
  - intros s Hs. apply in_flat_map in Hs. destruct Hs as [[q m] [_ Hs]].
    cbn [fst snd] in Hs. apply in_ownScreen in Hs.
    destruct Hs as (Ha & Hscr & ->).
    destruct (isAtomicComponent_Ok_named _ _ Ha) as [nm Hnm].
    rewrite (isScreenOrFrame_named _ _ Hnm) in Hscr. apply Ok_inj in Hscr.
    assert (Hn : nameStr m = nm) by (unfold nameStr; now rewrite Hnm).
    cbn [screenRecord Screen.type Screen.name Screen.width Screen.height].
    rewrite Hn. split; [reflexivity|].
    apply andb_true_iff in Hscr. destruct Hscr as [_ Hcond].
    apply orb_true_iff in Hcond. destruct Hcond as [Hp | Hlarge].
    + left. now apply existsb_includes_iff.
    + right. apply orb_true_iff in Hlarge.
      destruct Hlarge as [Hw | Hh]; [left | right]; now apply jsGe_iff.
Qed.

(** Witness of [extracted_record_invariants] on the sample home screen. *)
Lemma extracted_record_invariants_witness :
  extractAllNestedComponents homeScreen
  = Ok {| atomicComponents := [buttonRecord; avatarRecord];
          screens := [screenRecord homeScreen] |} /\
  Component.category avatarRecord
  = firstMatch categoryRules (toLowerCase (Component.name avatarRecord)).
Proof.
  split; [reflexivity|].
  destruct (extracted_record_invariants homeScreen
              {| atomicComponents := [buttonRecord; avatarRecord];
                 screens := [screenRecord homeScreen] |} eq_refl) as [H _].
  destruct (H avatarRecord) as (_ & _ & Hcat & _); [right; now left|].
  exact Hcat.
Defined.

(** X13. The node's type decides which array its visit may touch: the
    visit of a named node returns, leaves the screens as they are unless the
    type is FRAME, and leaves the catalogue as it is unless the type is
    COMPONENT or INSTANCE. *)
Theorem type_decides_array (node : Node) (s : string)
  (parentPath : list string) (acc : Extracted) :
  name node = Some s ->
  exists acc',
    visit node parentPath acc = Ok acc' /\
    (type node <> "FRAME" -> screens acc' = screens acc) /\
    (type node <> "COMPONENT" -> type node <> "INSTANCE" ->
     atomicComponents acc' = atomicComponents acc).
Proof.
  intros H.
  destruct (visit_cases node s parentPath acc H)
    as [[Ha Hv] | [[Ha [Hs Hv]] | [Ha [Hs Hv]]]]; rewrite Hv; eexists;
    (split; [reflexivity|]); split; try reflexivity.
  - intros Hc Hi. rewrite (isAtomicComponent_named _ _ H) in Ha.
    apply Ok_inj in Ha. apply andb_true_iff in Ha. destruct Ha as [Hty _].
    apply orb_true_iff in Hty. rewrite !String.eqb_eq in Hty. tauto.
  - intros Hf. rewrite (isScreenOrFrame_named _ _ H) in Hs.
    apply Ok_inj in Hs. apply andb_true_iff in Hs. destruct Hs as [Hty _].
    apply String.eqb_eq in Hty. contradiction.
Qed.

(** Witness of [type_decides_array]: a named group leaves both arrays. *)
Lemma type_decides_array_witness :
  exists acc',
    visit (mkNode (Some "Decoration") "6:1" "GROUP" None (sized 10 10)
                  noStyles None) [] noneExtracted = Ok acc' /\
    screens acc' = [] /\ atomicComponents acc' = [].
Proof.
  destruct (type_decides_array
              (mkNode (Some "Decoration") "6:1" "GROUP" None (sized 10 10)
                      noStyles None) "Decoration" [] noneExtracted eq_refl)
    as (acc' & Hv & Hs & Hc).
  exists acc'. split; [exact Hv|]. split.
  - apply Hs. discriminate.
  - apply Hc; discriminate.
Defined.

(** ** Category and atomic patterns *)

Lemma category_pattern_has_atomic_pattern (row : list string * Category)
  (p : string) :
  In row categoryRules -> In p (fst row) ->
  exists q, In q atomicPatterns /\ occursIn q p.
Proof.
  unfold categoryRules. simpl.
  intros Hrow Hp.
  repeat match goal with
         | H : _ \/ _ |- _ => destruct H as [H | H]
         | H : False |- _ => destruct H
         end; subst row; simpl in Hp;
    repeat match goal with
           | H : _ \/ _ |- _ => destruct H as [H | H]
           | H : False |- _ => destruct H
           end; subst p;
    match goal with
    | |- exists q, _ /\ occursIn q ?p =>
        first [ exists p; split; [simpl; tauto | exists "", ""; reflexivity]
              | exists "text"; split; [simpl; tauto | exists "", "field"; reflexivity] ]
    end.
Qed.

(** X14. Every category other than OTHER implies an atomic pattern: a
    named node of type COMPONENT or INSTANCE whose category is not OTHER is
    an atomic component whatever its size, even without a bounding box. *)
Theorem categorised_component_is_atomic (node : Node) (s : string)
  (cat : Category) :
  name node = Some s ->
  type node = "COMPONENT" \/ type node = "INSTANCE" ->
  determineComponentCategory node = Ok cat ->
  cat <> OTHER ->
  isAtomicComponent node = Ok true.
Proof.
  intros Hs Hty Hcat Hother.
  rewrite (determineComponentCategory_named _ _ Hs) in Hcat.
  apply Ok_inj in Hcat.
  rewrite (isAtomicComponent_named _ _ Hs). f_equal.
  apply andb_true_iff. split.
  - apply orb_true_iff. rewrite !String.eqb_eq. exact Hty.
  - apply orb_true_iff. left. apply existsb_includes_iff.
    pose proof (firstMatch_sound categoryRules (toLowerCase s)) as Hm.
    rewrite Hcat in Hm.
    destruct Hm as [(before & row & after & Hsplit & _ & [p [Hp Hocc]] & _)
                   | [Hc _]]; [|contradiction].
    assert (Hrow : In row categoryRules)
      by (rewrite Hsplit; apply in_or_app; right; now left).
    destruct (category_pattern_has_atomic_pattern row p Hrow Hp) as [q [Hq Hqp]].
    exists q. split; [exact Hq | exact (occursIn_trans _ _ _ Hqp Hocc)].
Qed.

(** Witness of [categorised_component_is_atomic]: a text field as large as
    a page. *)
Lemma categorised_component_is_atomic_witness :
  isAtomicComponent
    (mkNode (Some "SearchTextField") "7:1" "INSTANCE" None (sized 1200 900)
            noStyles None) = Ok true.
Proof.
  apply (categorised_component_is_atomic
           (mkNode (Some "SearchTextField") "7:1" "INSTANCE" None
                   (sized 1200 900) noStyles None)
           "SearchTextField" INPUT eq_refl (or_intror eq_refl) eq_refl).
  discriminate.
Defined.

(** ** /api/parse-figma and /api/parse-and-check on the same request *)

Lemma parseFigma_run (svc : Services) (req : ParseAndCheck.Request) :
  ParseFigma.run svc req
  = (fetched <- ParseAndCheck.fetchDocument svc req ;;
     found <- extractAllNestedComponents (snd fetched) ;;
     Ok (ParseFigma.Parsed (atomicComponents found) (screens found)
           (fileInfoOf (fst fetched)))).
Proof.
  unfold ParseFigma.run, ParseAndCheck.fetchDocument.
  destruct (figmaFile svc _) as [fileResponse|e]; [|reflexivity].
  cbn [Js.bind].
  destruct (ParseAndCheck.nodeId req) as [nodeId|].
  - now destruct (figmaNode svc _ nodeId).
  - reflexivity.
Qed.

Lemma checkRegistry_fileInfo (svc : Services) (found : Extracted)
  (info : FileInfo) (r : ParseAndCheck.Report) :
  ParseAndCheck.checkRegistry svc found info = Ok r ->
  ParseAndCheck.fileInfo r = info.
Proof.
  unfold ParseAndCheck.checkRegistry.
  destruct (ParseAndCheck.fetchTree _ _) as [allFiles|]; [|discriminate].
  cbn [Js.bind].
  destruct (ParseAndCheck.findRegistry _ allFiles) as [registryFile|].
  - destruct (gitlabRaw svc _) as [registryContent|]; [|discriminate].
    cbn [Js.bind].
    destruct (openaiCompare svc _ _) as [content|]; [|discriminate].
    cbn [Js.bind].
    destruct (JSON_parse content) as [a|]; [|discriminate].
    cbn [Js.bind].
    destruct (ParseAndCheck.separate a _) as [parts|]; [|discriminate].
    cbn [Js.bind]. intros H. apply Ok_inj in H. now subst r.
  - intros H. apply Ok_inj in H. now subst r.
Qed.

(** X15. With a token set, the two parsing endpoints agree on one
    request.  One fails exactly when the other does, with the same cause.
    When parse-figma answers with components and screens, parse-and-check
    answers with a report that has these screens and this file information
    and whose existing and new components are all among these components. *)
Theorem parse_endpoints_agree (token : string) (svc : Services)
  (req : ParseAndCheck.Request) :
  token <> "" ->
  match ParseFigma.handler (Some token) svc req with
  | ParseFigma.ConfigurationError _ _ => False
  | ParseFigma.Failed _ _ cause =>
      ParseAndCheck.handler svc req
      = ParseAndCheck.Failed "Parse and check failed" cause
  | ParseFigma.Parsed components screens info =>
      exists report,
        ParseAndCheck.handler svc req = ParseAndCheck.Answered report /\
        ParseAndCheck.reportScreens report = screens /\
        ParseAndCheck.fileInfo report = info /\
        forall c,
          In c (ParseAndCheck.Components.existing (ParseAndCheck.components report))
          \/ In c (ParseAndCheck.Components.new (ParseAndCheck.components report)) ->
          In c components
  end.
Proof.
  intros Htoken. unfold ParseFigma.handler, ParseAndCheck.handler.
  destruct token as [|ch token]; [contradiction|]. cbn [Startup.truthy negb].
  rewrite parseFigma_run. unfold ParseAndCheck.run.
  destruct (ParseAndCheck.fetchDocument svc req) as [fetched|e]; cbn [Js.bind];
    [|reflexivity].
  destruct (extractAllNestedComponents (snd fetched)) as [found|e];
    cbn [Js.bind]; [|reflexivity].
  destruct (ParseAndCheck.checkRegistry svc found _) as [r|e] eqn:Hr.
  - exists r. split; [reflexivity|].
    destruct (checkRegistry_Ok _ _ _ _ Hr)
      as (_ & Hscr & _ & [[_ Hcomp] | (a & existing & new & Hsep & Hcomp)]);
      (split; [exact Hscr | split; [exact (checkRegistry_fileInfo _ _ _ _ Hr)|]]);
      rewrite Hcomp;
      cbn [ParseAndCheck.Components.existing ParseAndCheck.Components.new].
    + intros c [[] | Hc]. exact Hc.
    + destruct (separate_In _ _ _ _ Hsep) as (_ & _ & HinE & HinN).
      intros c [Hc | Hc]; [now apply HinE in Hc | now apply HinN in Hc].
  - eexists. split; [reflexivity|]. cbn. repeat split.
    intros c [[] | Hc]. exact Hc.
Qed.

(** Witness of [parse_endpoints_agree]: both endpoints answer for the
    sample file when the oracle skips the avatar. *)
Lemma parse_endpoints_agree_witness :
  "figd_0123456789" <> "" /\
  exists report,
    ParseAndCheck.handler (servicesAnswering omitsAvatar) wholeFile
    = ParseAndCheck.Answered report /\
    ParseAndCheck.reportScreens report = [screenRecord homeScreen].
Proof.
  assert (H : "figd_0123456789" <> "") by discriminate.
  split; [exact H|].
  pose proof (parse_endpoints_agree "figd_0123456789"
                (servicesAnswering omitsAvatar) wholeFile H) as Hagree.
  cbn in Hagree. destruct Hagree as (report & Hrep & Hscr & _).
  exists report. split; [exact Hrep | exact Hscr].
Defined.

(** X16. A node without a name anywhere in the fetched document fails
    both parsing endpoints: parse-figma answers with status 500 and
    parse-and-check with its failure, both with the [TypeError] of the walk
    as cause, and neither returns any component. *)
Theorem unnamed_node_fails_parsing (token : string) (svc : Services)
  (req : ParseAndCheck.Request) (fetched : FigmaFile * Node) :
  token <> "" ->
  ParseAndCheck.fetchDocument svc req = Ok fetched ->
  allNamed (snd fetched) = false ->
  ParseFigma.handler (Some token) svc req
  = ParseFigma.Failed 500 "Figma parsing failed" TypeError /\
  ParseAndCheck.handler svc req
  = ParseAndCheck.Failed "Parse and check failed" TypeError.
Proof.
  intros Htoken Hdoc Hnamed.
  unfold ParseFigma.handler, ParseAndCheck.handler, ParseAndCheck.run.
  destruct token as [|ch token]; [contradiction|]. cbn [Startup.truthy negb].
  rewrite parseFigma_run, Hdoc. cbn [Js.bind].
  unfold extractAllNestedComponents. rewrite (walk_unnamed _ Hnamed).
  split; reflexivity.
Qed.

(** Witness of [unnamed_node_fails_parsing]: a frame without a name. *)
Lemma unnamed_node_fails_parsing_witness :
  "figd_0123456789" <> "" /\
  allNamed namelessFrame = false /\
  ParseAndCheck.handler servicesNameless wholeFile
  = ParseAndCheck.Failed "Parse and check failed" TypeError.
Proof.
  assert (H : "figd_0123456789" <> "") by discriminate.
  split; [exact H | split; [reflexivity|]].
  exact (proj2 (unnamed_node_fails_parsing "figd_0123456789" servicesNameless
                  wholeFile
                  ({| document := namelessFrame; fileName := None;
                      lastModified := None; version := None |}, namelessFrame)
                  H eq_refl eq_refl)).
Defined.

(** ** Start-up validation and the configuration guards *)

Lemma filter_nil_all_false (A : Type) (f : A -> bool) (l : list A) :
  List.filter f l = [] -> forall x, In x l -> f x = false.
Proof.
  induction l as [|y l IH]; simpl; [intros _ x []|].
  destruct (f y) eqn:E; [discriminate|].
  intros H x [<- | Hx]; [exact E | now apply IH].
Qed.

(** X17. The server listens only when each of the four required
    variables holds a non-empty string; then the configuration guards of
    parse-figma and of test-gitlab never fire.  Otherwise the process exits
    with code 1, having listed exactly the required variables that are
    absent or empty. *)
Theorem startup_validates_environment (env : Startup.Env) :
  match Startup.start env with
  | Startup.Exit code missing =>
      code = 1 /\ missing <> [] /\
      forall v,
        In v missing
        <-> In v Startup.requiredEnvVars /\ Startup.truthy (env v) = false
  | Startup.Listening port =>
      port = Startup.PORT env /\
      (forall v, In v Startup.requiredEnvVars -> Startup.truthy (env v) = true) /\
      (forall svc req,
          match ParseFigma.handler (env "FIGMA_TOKEN") svc req with
          | ParseFigma.ConfigurationError _ _ => False
          | _ => True
          end) /\
      (forall project tree,
          match TestGitlab.handler (env "GITLAB_TOKEN") (env "GITLAB_PROJECT_ID")
                  project tree with
          | TestGitlab.MissingConfiguration _ _ => False
          | _ => True
          end)
  end.
Proof.
  unfold Startup.start.
  destruct (Startup.missingEnvVars env) as [|v0 missing] eqn:E;
    cbn [List.length Nat.ltb Nat.leb].
  - assert (Hall : forall v, In v Startup.requiredEnvVars ->
                             Startup.truthy (env v) = true).
    { intros v Hv.
      pose proof (filter_nil_all_false _ _ _ E v Hv) as Hf. simpl in Hf.
      now apply negb_false_iff in Hf. }
    split; [reflexivity | split; [exact Hall | split]].
    + intros svc req. unfold ParseFigma.handler.
      rewrite (Hall "FIGMA_TOKEN")
        by (unfold Startup.requiredEnvVars; simpl; tauto).
      cbn [negb].
      rewrite parseFigma_run.
      destruct (ParseAndCheck.fetchDocument svc req) as [fetched|]; [|exact I].
      cbn [Js.bind].
      now destruct (extractAllNestedComponents (snd fetched)).
    + intros project tree. unfold TestGitlab.handler.
      rewrite (Hall "GITLAB_TOKEN"), (Hall "GITLAB_PROJECT_ID")
        by (unfold Startup.requiredEnvVars; simpl; tauto).
      cbn [negb orb].
      unfold TestGitlab.run.
      destruct project as [project|]; [|exact I].
      now destruct tree.
  - split; [reflexivity | split; [discriminate|]].
    intros v. rewrite <- E. unfold Startup.missingEnvVars.
    rewrite filter_In, negb_true_iff. reflexivity.
Qed.

(** ** /api/commit-component *)

(** X18. The commit request is sent only after the branch creation has
    resolved, on the branch of the request and with the single action that
    creates the file; the first request sent is always the creation of the
    branch from main; and the handler answers success exactly when both
    requests resolved. *)
Theorem commit_follows_branch_creation (Repo : Type)
  (post : Repo -> CommitComponent.Post -> Repo * result unit)
  (repo repo' : Repo) (req : CommitComponent.Request)
  (posts : list CommitComponent.Post) (resp : CommitComponent.Response) :
  CommitComponent.handler post repo req = (repo', posts, resp) ->
  let createBranch :=
    CommitComponent.PostBranch (CommitComponent.branch req) "main" in
  let commit :=
    CommitComponent.PostCommit (CommitComponent.branch req)
      (CommitComponent.commitMessage req)
      [ {| CommitComponent.action := "create";
           CommitComponent.file_path := CommitComponent.filePath req;
           CommitComponent.content := CommitComponent.code req |} ] in
  (exists rest, posts = createBranch :: rest) /\
  (forall b m a,
      In (CommitComponent.PostCommit b m a) posts ->
      CommitComponent.PostCommit b m a = commit /\
      exists repo1 u, post repo createBranch = (repo1, Ok u)) /\
  (resp = CommitComponent.Committed
   <-> exists repo1 u u',
         post repo createBranch = (repo1, Ok u) /\
         post repo1 commit = (repo', Ok u')).
Proof.
  intros H createBranch commit. unfold CommitComponent.handler in H.
  fold createBranch in H.
  destruct (post repo createBranch) as [repo1 [u|e]] eqn:E1.
  - fold commit in H.
    destruct (post repo1 commit) as [repo2 [u'|e]] eqn:E2;
      injection H as <- <- <-.
    + split; [now eexists | split].
      * intros b m a [Hin | [Hin | []]]; [discriminate|].
        split; [now symmetry | now exists repo1, u].
      * split; [intros _; now exists repo1, u, u' | reflexivity].
    + split; [now eexists | split].
      * intros b m a [Hin | [Hin | []]]; [discriminate|].
        split; [now symmetry | now exists repo1, u].
      * split; [discriminate|].
        intros (r1 & v & v' & [= <- <-] & Hc). rewrite E2 in Hc. discriminate.
  - injection H as <- <- <-.
    split; [now eexists | split].
    + intros b m a [Hin | []]. discriminate.
    + split; [discriminate|]. intros (r1 & v & v' & [=] & _).
Qed.

(** Witness of [commit_follows_branch_creation] on the sample GitLab. *)
Lemma commit_follows_branch_creation_witness :
  CommitComponent.handler CommitComponent.samplePost []
    CommitComponent.buttonCommit
  = ([("feature/primary-button", ["src/components/PrimaryButton.tsx"])],
     [ CommitComponent.PostBranch "feature/primary-button" "main";
       CommitComponent.PostCommit "feature/primary-button" "Add PrimaryButton"
         [ {| CommitComponent.action := "create";
              CommitComponent.file_path := "src/components/PrimaryButton.tsx";
              CommitComponent.content :=
                "export const PrimaryButton = () => null;" |} ] ],
     CommitComponent.Committed) /\
  exists rest,
    [ CommitComponent.PostBranch "feature/primary-button" "main";
      CommitComponent.PostCommit "feature/primary-button" "Add PrimaryButton"
        [ {| CommitComponent.action := "create";
             CommitComponent.file_path := "src/components/PrimaryButton.tsx";
             CommitComponent.content :=
               "export const PrimaryButton = () => null;" |} ] ]
    = CommitComponent.PostBranch "feature/primary-button" "main" :: rest.
Proof.
  split; [reflexivity|].
  exact (proj1 (commit_follows_branch_creation _ CommitComponent.samplePost [] _
                  CommitComponent.buttonCommit _ _ eq_refl)).
Defined.

(** X19. Each request creates its branch, so a branch serves once: if
    GitLab rejects the creation of a branch that was created and committed
    to, leaving its state as it is, then after a successful request every
    further request for the same branch fails at the branch creation, sends
    no commit and leaves the repository as it is. *)
Theorem second_commit_on_branch_fails (Repo : Type)
  (post : Repo -> CommitComponent.Post -> Repo * result unit)
  (repo repo' : Repo) (req req2 : CommitComponent.Request)
  (posts : list CommitComponent.Post) :
  (forall r r1 r2 b ref m a u u',
      post r (CommitComponent.PostBranch b ref) = (r1, Ok u) ->
      post r1 (CommitComponent.PostCommit b m a) = (r2, Ok u') ->
      exists e, post r2 (CommitComponent.PostBranch b ref) = (r2, Err e)) ->
  CommitComponent.handler post repo req = (repo', posts, CommitComponent.Committed) ->
  CommitComponent.branch req2 = CommitComponent.branch req ->
  exists e,
    CommitComponent.handler post repo' req2
    = (repo',
       [CommitComponent.PostBranch (CommitComponent.branch req) "main"],
       CommitComponent.Failed "GitLab commit failed" e).
Proof.
  intros Hdup H Hbranch. unfold CommitComponent.handler in *.
  destruct (post repo _) as [repo1 [u|e]] eqn:E1; [|discriminate].
  destruct (post repo1 _) as [repo2 [u'|e]] eqn:E2; [|discriminate].
  injection H as <- _.
  destruct (Hdup _ _ _ _ _ _ _ _ _ E1 E2) as [e He].
  exists e. rewrite Hbranch, He. reflexivity.
Qed.

Lemma samplePost_rejects_duplicate :
  forall r r1 r2 b ref m a u u',
    CommitComponent.samplePost r (CommitComponent.PostBranch b ref) = (r1, Ok u) ->
    CommitComponent.samplePost r1 (CommitComponent.PostCommit b m a) = (r2, Ok u') ->
    exists e,
      CommitComponent.samplePost r2 (CommitComponent.PostBranch b ref)
      = (r2, Err e).
Proof.
  intros r r1 r2 b ref m a u u' H1 H2. simpl in *.
  destruct (CommitComponent.hasBranch r1 b) eqn:E; [|discriminate].
  injection H2 as <- _.
  assert (Hb : CommitComponent.hasBranch
                 (map (fun entry =>
                         if String.eqb (fst entry) b
                         then (fst entry,
                               snd entry ++ map CommitComponent.file_path a)
                         else entry) r1) b = true).
  { clear H1. unfold CommitComponent.hasBranch in *.
    induction r1 as [|entry r1 IH]; [discriminate|]. simpl in *.
    destruct (String.eqb (fst entry) b) eqn:Eb; simpl.
    - now rewrite Eb.
    - rewrite Eb. simpl. now apply IH. }
  rewrite Hb. eexists. reflexivity.
Qed.

(** Witness of [second_commit_on_branch_fails] on the sample GitLab: the
    avatar cannot follow the button on the branch of the button. *)
Lemma second_commit_on_branch_fails_witness :
  exists e,
    CommitComponent.handler CommitComponent.samplePost
      [("feature/primary-button", ["src/components/PrimaryButton.tsx"])]
      {| CommitComponent.branch := "feature/primary-button";
         CommitComponent.filePath := "src/components/UserAvatar.tsx";
         CommitComponent.code := "export const UserAvatar = () => null;";
         CommitComponent.commitMessage := "Add UserAvatar" |}
    = ([("feature/primary-button", ["src/components/PrimaryButton.tsx"])],
       [CommitComponent.PostBranch "feature/primary-button" "main"],
       CommitComponent.Failed "GitLab commit failed" e).
Proof.
  exact (second_commit_on_branch_fails _ CommitComponent.samplePost [] _
           CommitComponent.buttonCommit
           {| CommitComponent.branch := "feature/primary-button";
              CommitComponent.filePath := "src/components/UserAvatar.tsx";
              CommitComponent.code := "export const UserAvatar = () => null;";
              CommitComponent.commitMessage := "Add UserAvatar" |}
           _ samplePost_rejects_duplicate eq_refl eq_refl).
Defined.

(** ** The earlier extraction and the current one *)

Lemma legacy_walk_unfold (node : Node) (p : list (option string))
  (components : list Legacy.Component.t) :
  Legacy.walk node p components
  = Legacy.walkEach (kids node) (p ++ [name node])
      (if Legacy.recorded node then components ++ [Legacy.record node p]
       else components).
Proof.
  destruct node as [nm i t d b st [cs|]]; cbn [Legacy.walk kids children];
    [|reflexivity].
  generalize (if Legacy.recorded (mkNode nm i t d b st (Some cs))
              then components ++ [Legacy.record (mkNode nm i t d b st (Some cs)) p]
              else components).
  induction cs as [|c cs IH]; intros l; [reflexivity|].
  cbn [Legacy.walkEach]. apply IH.
Qed.

Lemma legacy_descriptors_unfold (p : list (option string)) (n : Node) :
  Legacy.descriptors p n
  = (p, n) :: flat_map (Legacy.descriptors (p ++ [name n])) (kids n).
Proof. now destruct n as [nm i t d b st [cs|]]. Qed.

Lemma legacy_walkEach_descriptors (cs : list Node) (q : list (option string)) :
  Forall (fun c =>
            forall p components,
              Legacy.walk c p components
              = components ++ flat_map Legacy.own (Legacy.descriptors p c)) cs ->
  forall components,
    Legacy.walkEach cs q components
    = components ++ flat_map Legacy.own (flat_map (Legacy.descriptors q) cs).
Proof.
  induction 1 as [|c cs Hc _ IH]; intros components; cbn.
  - now rewrite app_nil_r.
  - rewrite Hc, IH, flat_map_app. now rewrite app_assoc.
Qed.

(** The earlier walk appends the records of the recorded nodes, in
    pre-order, and it does so for every tree. *)
Lemma legacy_walk_descriptors (n : Node) :
  forall p components,
    Legacy.walk n p components
    = components ++ flat_map Legacy.own (Legacy.descriptors p n).
Proof.
  induction n as [nm i t d b st | nm i t d b st cs IH] using Node_induction;
    intros p components; rewrite legacy_walk_unfold, legacy_descriptors_unfold;
    cbn [kids children flat_map Legacy.walkEach].
  - unfold Legacy.own at 1. cbn [fst snd]. rewrite app_nil_r.
    now destruct (Legacy.recorded _); [|rewrite app_nil_r].
  - rewrite (legacy_walkEach_descriptors cs _ IH).
    unfold Legacy.own at 2. cbn [fst snd].
    destruct (Legacy.recorded _); [now rewrite <- app_assoc | reflexivity].
Qed.

Lemma flat_map_map (A B C : Type) (f : B -> list C) (g : A -> B) (l : list A) :
  flat_map f (map g l) = flat_map (fun x => f (g x)) l.
Proof.
  induction l as [|x l IH]; [reflexivity|]. simpl. now rewrite IH.
Qed.

Lemma named_nameStr (n : Node) (s : string) :
  name n = Some s -> name n = Some (nameStr n).
Proof. unfold nameStr. now intros ->. Qed.

(** On a named tree the earlier descriptors are the current ones, the
    names of each path wrapped. *)
Lemma legacy_descriptors_named (n : Node) :
  allNamed n = true ->
  forall p,
    Legacy.descriptors (map Some p) n
    = map (fun d => (map Some (fst d), snd d)) (descriptors p n).
Proof.
  induction n as [nm i t d b st | nm i t d b st cs IH] using Node_induction;
    intros Hnamed p; [reflexivity|].
  apply allNamed_unfold in Hnamed. destruct Hnamed as [[s Hs] Hkids].
  rewrite legacy_descriptors_unfold, descriptors_unfold.
  cbn [kids children map fst snd] in *. f_equal.
  rewrite map_flat_map, (named_nameStr _ s Hs).
  change [Some (nameStr (mkNode nm i t d b st (Some cs)))]
    with (map Some [nameStr (mkNode nm i t d b st (Some cs))]).
  rewrite <- map_app. apply flat_map_ext_Forall.
  rewrite Forall_forall in *. intros c Hc. apply IH; [exact Hc|].
  now apply Hkids.
Qed.

Lemma flat_map_sum_length_le (A B C D : Type) (f : A -> list B)
  (g : A -> list C) (h : A -> list D) (l : list A) :
  (forall x, List.length (f x) + List.length (g x) <= List.length (h x)) ->
  List.length (flat_map f l) + List.length (flat_map g l)
  <= List.length (flat_map h l).
Proof.
  intros H. induction l as [|x l IH]; simpl; [lia|].
  rewrite !length_app. specialize (H x). lia.
Qed.

Lemma flat_map_length_bound (A B : Type) (f : A -> list B) (l : list A) :
  (forall x, List.length (f x) <= 1) ->
  List.length (flat_map f l) <= List.length l.
Proof.
  intros H. induction l as [|x l IH]; simpl; [lia|].
  rewrite length_app. specialize (H x). lia.
Qed.

Lemma legacy_own_at_most_one (d : list (option string) * Node) :
  List.length (Legacy.own d) <= 1.
Proof. unfold Legacy.own. destruct (Legacy.recorded _); simpl; lia. Qed.

Lemma isAtomicComponent_recorded (m : Node) :
  isAtomicComponent m = Ok true -> Legacy.recorded m = true.
Proof.
  intros Ha. destruct (isAtomicComponent_Ok_named _ _ Ha) as [s Hs].
  rewrite (isAtomicComponent_named _ _ Hs) in Ha. apply Ok_inj in Ha.
  apply andb_true_iff in Ha. destruct Ha as [Hty _].
  unfold Legacy.recorded. now rewrite Hty.
Qed.

Lemma isScreenOrFrame_recorded (m : Node) :
  isScreenOrFrame m = Ok true -> type m = "FRAME" /\ Legacy.recorded m = true.
Proof.
  intros Hscr. destruct (name m) as [s|] eqn:Hs.
  - rewrite (isScreenOrFrame_named _ _ Hs) in Hscr. apply Ok_inj in Hscr.
    apply andb_true_iff in Hscr. destruct Hscr as [Hty _].
    unfold Legacy.recorded. rewrite Hty, orb_true_r.
    split; [now apply String.eqb_eq | reflexivity].
  - unfold isScreenOrFrame in Hscr. now rewrite (lowerName_unnamed _ Hs) in Hscr.
Qed.

(** X20. The current extraction refines the earlier one.  Whenever the
    current extraction returns, every record of its catalogue is, category
    apart, a record of the earlier extraction of the same document; every
    screen record comes from an earlier record of type FRAME with the same
    name, id and size; and the catalogue and the screens together are no more
    than the earlier records, which are no more than the nodes. *)
Theorem extraction_refines_legacy (document : Node) (found : Extracted) :
  extractAllNestedComponents document = Ok found ->
  (forall c,
      In c (atomicComponents found) ->
      In (legacyOfComponent c) (Legacy.extractAllNestedComponents document)) /\
  (forall s,
      In s (screens found) ->
      exists r,
        In r (Legacy.extractAllNestedComponents document) /\
        Legacy.Component.type r = "FRAME" /\
        Legacy.Component.name r = Some (Screen.name s) /\
        Legacy.Component.id r = Screen.id s /\
        Legacy.Component.width r = Screen.width s /\
        Legacy.Component.height r = Screen.height s) /\
  List.length (atomicComponents found) + List.length (screens found)
  <= List.length (Legacy.extractAllNestedComponents document) /\
  List.length (Legacy.extractAllNestedComponents document) <= size document.
Proof.
  unfold extractAllNestedComponents, Legacy.extractAllNestedComponents.
  intros H. pose proof (walk_Ok_allNamed _ _ _ _ H) as Hnamed.
  rewrite (walk_descriptors document Hnamed) in H. apply Ok_inj in H.
  subst found. cbn [atomicComponents screens noneExtracted app].
  rewrite legacy_walk_descriptors. cbn [app].
  change (@nil (option string)) with (map Some (@nil string)).
  rewrite (legacy_descriptors_named document Hnamed), flat_map_map.
  split; [|split; [|split]].
  - intros c Hc. apply in_flat_map in Hc. destruct Hc as [[q m] [Hd Hc]].
    cbn [fst snd] in Hc. apply in_ownComponent in Hc.
    destruct Hc as (cat & Ha & _ & ->).
    apply in_flat_map. exists (q, m). split; [exact Hd|].
    unfold Legacy.own. cbn [fst snd].
    rewrite (isAtomicComponent_recorded _ Ha). left.
    destruct (isAtomicComponent_Ok_named _ _ Ha) as [s Hs].
    unfold legacyOfComponent, Legacy.record, componentRecord.
    cbn [Component.name Component.id Component.path Component.type
         Component.description Component.width Component.height
         Component.children Component.styles].
    now rewrite map_app, (named_nameStr _ s Hs).
  - intros s Hs. apply in_flat_map in Hs. destruct Hs as [[q m] [Hd Hs]].
    cbn [fst snd] in Hs. apply in_ownScreen in Hs.
    destruct Hs as (Ha & Hscr & ->).
    destruct (isScreenOrFrame_recorded _ Hscr) as [Hty Hrec].
    destruct (isAtomicComponent_Ok_named _ _ Ha) as [nm Hnm].
    exists (Legacy.record m (map Some q)). split.
    + apply in_flat_map. exists (q, m). split; [exact Hd|].
      unfold Legacy.own. cbn [fst snd]. rewrite Hrec. now left.
    + cbn. rewrite Hty, (named_nameStr _ nm Hnm). now repeat split.
  - apply flat_map_sum_length_le. intros [q m]. cbn [fst snd].
    unfold Legacy.own. cbn [fst snd].
    unfold ownComponent, ownScreen.
    destruct (isAtomicComponent m) as [[|]|] eqn:Ha; cbn [List.length].
    + rewrite (isAtomicComponent_recorded _ Ha).
      destruct (determineComponentCategory m); simpl; lia.
    + destruct (isScreenOrFrame m) as [[|]|] eqn:Hscr; simpl; try lia.
      destruct (isScreenOrFrame_recorded _ Hscr) as [_ ->]. simpl. lia.
    + simpl. lia.
  - rewrite <- (descriptors_length document []).
    apply flat_map_length_bound. intros [q m]. apply legacy_own_at_most_one.
Qed.

(** Witness of [extraction_refines_legacy] on the sample home screen. *)
Lemma extraction_refines_legacy_witness :
  extractAllNestedComponents homeScreen
  = Ok {| atomicComponents := [buttonRecord; avatarRecord];
          screens := [screenRecord homeScreen] |} /\
  In (legacyOfComponent avatarRecord)
     (Legacy.extractAllNestedComponents homeScreen).
Proof.
  split; [reflexivity|].
  destruct (extraction_refines_legacy homeScreen
              {| atomicComponents := [buttonRecord; avatarRecord];
                 screens := [screenRecord homeScreen] |} eq_refl) as [H _].
  apply H. right. now left.
Defined.


Lemma legacy_descriptors_preorder (n : Node) (p : list (option string)) :
  map snd (Legacy.descriptors p n) = preorder n.
Proof.
  revert p.
  induction n as [nm i t d b st | nm i t d b st cs IH] using Node_induction;
    intros p; [reflexivity|].
  rewrite legacy_descriptors_unfold, preorder_unfold.
  cbn [map snd kids children]. f_equal. rewrite map_flat_map.
  apply flat_map_ext_Forall. apply Forall_forall. rewrite Forall_forall in IH.
  intros c Hc. now apply IH.
Qed.

Lemma legacy_own_nodes (ds : list (list (option string) * Node)) :
  map (fun r => (Legacy.Component.id r, Legacy.Component.name r,
                 Legacy.Component.type r))
      (flat_map Legacy.own ds)
  = map (fun m => (id m, name m, type m))
        (List.filter Legacy.recorded (map snd ds)).
Proof.
  induction ds as [|[q m] ds IH]; [reflexivity|].
  cbn [flat_map map List.filter snd]. rewrite map_app, IH.
  unfold Legacy.own. cbn [fst snd].
  now destruct (Legacy.recorded m).
Qed.

(** X21. The earlier extraction never fails, whether the nodes have names
    or not: it records, in depth-first pre-order, exactly the nodes whose
    type is COMPONENT, INSTANCE or FRAME, each with its id, name and type. *)
Theorem legacy_records_typed_nodes (document : Node) :
  map (fun r => (Legacy.Component.id r, Legacy.Component.name r,
                 Legacy.Component.type r))
      (Legacy.extractAllNestedComponents document)
  = map (fun m => (id m, name m, type m))
        (List.filter
           (fun m =>
              String.eqb (type m) "COMPONENT" || String.eqb (type m) "INSTANCE"
              || String.eqb (type m) "FRAME")
           (preorder document)).
Proof.
  unfold Legacy.extractAllNestedComponents.
  rewrite legacy_walk_descriptors. cbn [app].
  rewrite legacy_own_nodes, legacy_descriptors_preorder. reflexivity.
Qed.

(** ** /api/parse-figma: the status of a failure *)

(** X22. When the document cannot be fetched, parse-figma passes on the
    status of the rejected request if it carries one other than 0, and
    answers 500 otherwise; the cause is the rejection itself. *)
Theorem parse_figma_failure_status (token : string) (svc : Services)
  (req : ParseAndCheck.Request) (status : option nat) (message : string) :
  token <> "" ->
  ParseAndCheck.fetchDocument svc req = Err (RequestError status message) ->
  exists code,
    ParseFigma.handler (Some token) svc req
    = ParseFigma.Failed code "Figma parsing failed" (RequestError status message) /\
    code <> 0 /\
    (forall n, status = Some (S n) -> code = S n) /\
    (status = None \/ status = Some 0 -> code = 500).
Proof.
  intros Htoken Hdoc. unfold ParseFigma.handler.
  destruct token as [|ch token]; [contradiction|]. cbn [Startup.truthy negb].
  rewrite parseFigma_run, Hdoc. cbn [Js.bind ParseFigma.responseStatus].
  eexists. split; [reflexivity|].
  destruct status as [[|n]|]; cbn [ParseFigma.orElse].
  - split; [discriminate | split; [discriminate | reflexivity]].
  - split; [discriminate | split; [now intros m [= ->] | intros [H | H]; discriminate]].
  - split; [discriminate | split; [discriminate | reflexivity]].
Qed.

(** Witness of [parse_figma_failure_status]: Figma answers 403. *)
Lemma parse_figma_failure_status_witness :
  "figd_0123456789" <> "" /\
  exists code,
    ParseFigma.handler (Some "figd_0123456789")
      {| figmaFile := fun _ => Err (RequestError (Some 403) "Forbidden");
         figmaNode := fun _ _ => Ok homeScreen;
         gitlabTree := Ok [];
         gitlabTreePages := [];
         gitlabRaw := fun _ => Ok "";
         openaiCompare := fun _ _ => Ok NotJson |}
      wholeFile
    = ParseFigma.Failed code "Figma parsing failed"
        (RequestError (Some 403) "Forbidden") /\
    code = 403.
Proof.
  assert (H : "figd_0123456789" <> "") by discriminate.
  split; [exact H|].
  destruct (parse_figma_failure_status "figd_0123456789"
              {| figmaFile := fun _ => Err (RequestError (Some 403) "Forbidden");
                 figmaNode := fun _ _ => Ok homeScreen;
                 gitlabTree := Ok [];
                 gitlabTreePages := [];
                 gitlabRaw := fun _ => Ok "";
                 openaiCompare := fun _ _ => Ok NotJson |}
              wholeFile (Some 403) "Forbidden" H eq_refl)
    as (code & Hcode & _ & Hpass & _).
  exists code. split; [exact Hcode | exact (Hpass 402 eq_refl)].
Defined.
